(** * Theme-Maker-Gnome: the palette module ([src/theme_maker/palette.py])

    A shallow embedding of the colour pipeline: colour-space conversions,
    k-means extraction of dominant colours, accent scoring and selection, and
    the derivation of the full palette from one accent.

    Python's [float] is IEEE 754 binary64; it is embedded as Rocq's primitive
    [float], the same format with the same correctly rounded operations, so
    every definition below evaluates to the value the Python code computes.
    Python's [int] is embedded as [Z]. *)

From Stdlib Require Import ZArith Lia Bool List String Ascii.
From Stdlib Require Import Permutation Sorted.
From Stdlib Require Import Uint63 Floats.
Import ListNotations.

Set Warnings "-inexact-float,-abstract-large-number".

Local Open Scope Z_scope.

(** Exceptions are not told apart: a computation that raises is [None]. *)
Notation "x <- e ;; k" := (match e with Some x => k | None => None end)
  (at level 61, e at next level, right associativity).
Notation "' p <- e ;; k" := (match e with Some p => k | None => None end)
  (at level 61, p pattern, e at next level, right associativity).

(** ** Python numbers *)

Module Py.

(** [float(z)] for an [int] below [2^63] in magnitude (correctly rounded;
    exact below [2^53], which covers every call of this program). *)
Definition float_of_Z (z : Z) : float :=
  if z <? 0 then PrimFloat.opp (PrimFloat.of_uint63 (Uint63.of_Z (- z)))
  else PrimFloat.of_uint63 (Uint63.of_Z z).

(** The magnitude of a finite float as [m * 2^e], [m] an integer below
    [2^53] (a normalised mantissa, or 0) and [e] kept with the offset
    [FloatOps.shift] of [frshiftexp]. *)
Definition decode (x : float) : int * int :=
  let (m, e) := PrimFloat.frshiftexp (PrimFloat.abs x) in
  (PrimFloat.normfr_mantissa m, e).

(** The value of a machine integer, read bit by bit from the low end and
    stopping at the last set bit (so small values convert in few steps). *)
Fixpoint Z_of_int_fuel (fuel : nat) (i : int) : Z :=
  match fuel with
  | O => 0
  | S fuel' =>
      if (i =? 0)%uint63 then 0
      else
        let hi := Z.double (Z_of_int_fuel fuel' (i >> 1)%uint63) in
        if (i land 1 =? 0)%uint63 then hi else Z.succ hi
  end.

Definition Z_of_int (i : int) : Z := Z_of_int_fuel 63 i.

(** Truncation of a finite float toward zero, as C's cast to an integer. *)
Definition trunc (x : float) : Z :=
  let (m, e) := decode x in
  (* |x| = m * 2^(e - shift - 53), and shift + 53 = 2154 *)
  let mag :=
    if (e <=? 2154)%uint63
    then Z_of_int (m >> (2154 - e))%uint63
    else Z.shiftl (Z_of_int m) (Z_of_int (e - 2154)%uint63) in
  if PrimFloat.ltb x 0 then - mag else mag.

(** [int(x)]: truncation toward zero; [ValueError] on a NaN and
    [OverflowError] on an infinity, both [None] here. *)
Definition int_of_float (x : float) : option Z :=
  if PrimFloat.is_finite x then Some (trunc x) else None.

(** [floor] of a finite float, as an integer. *)
Definition floor (x : float) : Z :=
  let t := trunc x in
  if PrimFloat.ltb x (float_of_Z t) then t - 1 else t.

(** [x / y] on floats: [ZeroDivisionError] when [y] is zero. *)
Definition div (x y : float) : option float :=
  if PrimFloat.eqb y 0 then None else Some (x / y)%float.

(** [max(a, b)] and [min(a, b)] of the builtins: the first argument is kept
    unless the second is strictly greater (smaller). *)
Definition max (a b : float) : float := if PrimFloat.ltb a b then b else a.
Definition min (a b : float) : float := if PrimFloat.ltb b a then b else a.
Definition max3 (a b c : float) : float := max (max a b) c.
Definition min3 (a b c : float) : float := min (min a b) c.

(** [r] doubled [d] times modulo [m], for [r < m < 2^53]; [fuel] bounds
    [d], which is a difference of two binary64 exponents. *)
Fixpoint shift_mod (fuel : nat) (d r m : int) : int :=
  match fuel with
  | O => r
  | S fuel' =>
      if (d =? 0)%uint63 then r
      else shift_mod fuel' (d - 1)%uint63 (PrimInt63.mod (r << 1)%uint63 m) m
  end.

Definition exponent_span : nat := 4300.

(** C's [fmod(x, y)] for finite [x] and finite non-zero [y]: the exact
    remainder of the truncated division, with the sign of [x]. *)
Definition fmod_finite (x y : float) : float :=
  let (mx, ex) := decode x in
  let (my, ey) := decode y in
  if PrimFloat.eqb x 0 then x
  else if (ex <? ey)%uint63 then x
  else
    let r := shift_mod exponent_span (ex - ey)%uint63 (PrimInt63.mod mx my) my in
    let mag := PrimFloat.ldshiftexp (PrimFloat.of_uint63 r) (ey - 53)%uint63 in
    if PrimFloat.ltb x 0 then PrimFloat.opp mag else mag.

Definition fmod (x y : float) : float :=
  if PrimFloat.is_nan x || PrimFloat.is_nan y || PrimFloat.is_infinity x
     || PrimFloat.eqb y 0
  then PrimFloat.nan
  else if PrimFloat.is_infinity y then x
  else fmod_finite x y.

(** [x % y] on floats ([float_rem] of CPython): [ZeroDivisionError] when
    [y] is zero, else [fmod] moved to the sign of [y]. *)
Definition rem (x y : float) : option float :=
  if PrimFloat.eqb y 0 then None
  else
    let m := fmod x y in
    if negb (PrimFloat.eqb m 0) || PrimFloat.is_nan m
    then
      if negb (Bool.eqb (PrimFloat.ltb y 0) (PrimFloat.ltb m 0))
      then Some (m + y)%float else Some m
    else Some (if PrimFloat.ltb y 0 then PrimFloat.neg_zero else PrimFloat.zero).

(** [x % y] for a non-zero literal [y], where no error is possible. *)
Definition rem_nz (x y : float) : float :=
  match rem x y with Some r => r | None => PrimFloat.nan end.

End Py.

(** ** The [colorsys] module of the Python standard library

    As in CPython 3.11 up to 3.11.4.  Later releases compute the saturation
    of a light colour as [rangec / (2.0 - maxc - minc)] where this one has
    [rangec / (2.0 - sumc)]; the two can differ in the last bit. *)

Module colorsys.

Definition ONE_THIRD : float := (1 / 3)%float.
Definition ONE_SIXTH : float := (1 / 6)%float.
Definition TWO_THIRD : float := (2 / 3)%float.

Definition rgb_to_hls (r g b : float) : option (float * float * float) :=
  let maxc := Py.max3 r g b in
  let minc := Py.min3 r g b in
  let sumc := (maxc + minc)%float in
  let rangec := (maxc - minc)%float in
  let l := (sumc / 2)%float in
  if PrimFloat.eqb minc maxc then Some (0%float, l, 0%float)
  else
    s <- (if PrimFloat.leb l 0.5 then Py.div rangec sumc
          else Py.div rangec (2 - sumc)%float) ;;
    rc <- Py.div (maxc - r)%float rangec ;;
    gc <- Py.div (maxc - g)%float rangec ;;
    bc <- Py.div (maxc - b)%float rangec ;;
    let h := if PrimFloat.eqb r maxc then (bc - gc)%float
             else if PrimFloat.eqb g maxc then (2 + rc - bc)%float
             else (4 + gc - rc)%float in
    Some (Py.rem_nz (h / 6)%float 1, l, s).

Definition _v (m1 m2 hue : float) : float :=
  let hue := Py.rem_nz hue 1 in
  if PrimFloat.ltb hue ONE_SIXTH then (m1 + (m2 - m1) * hue * 6)%float
  else if PrimFloat.ltb hue 0.5 then m2
  else if PrimFloat.ltb hue TWO_THIRD
       then (m1 + (m2 - m1) * (TWO_THIRD - hue) * 6)%float
  else m1.

Definition hls_to_rgb (h l s : float) : float * float * float :=
  if PrimFloat.eqb s 0 then (l, l, l)
  else
    let m2 := if PrimFloat.leb l 0.5 then (l * (1 + s))%float
              else (l + s - l * s)%float in
    let m1 := (2 * l - m2)%float in
    (_v m1 m2 (h + ONE_THIRD)%float, _v m1 m2 h, _v m1 m2 (h - ONE_THIRD)%float).

End colorsys.


(** ** Python strings

    A [str] is embedded as a [string] of code points below 256. *)

Module PyStr.

(** [s.lstrip("#")]. *)
Fixpoint lstrip_hash (s : string) : string :=
  match s with
  | String c s' => if Ascii.eqb c "#" then lstrip_hash s' else s
  | EmptyString => s
  end.

(** [s[a:b]] for [0 <= a <= b]: slices never raise. *)
Definition slice (a b : nat) (s : string) : string := substring a (b - a) s.

Definition hex_digit (c : ascii) : option Z :=
  let n := Z.of_N (N_of_ascii c) in
  if (48 <=? n) && (n <=? 57) then Some (n - 48)
  else if (97 <=? n) && (n <=? 102) then Some (n - 87)
  else if (65 <=? n) && (n <=? 70) then Some (n - 55)
  else None.

(** White space as [int()] skips it: the ASCII blanks, and NEL and NBSP. *)
Definition is_space (c : ascii) : bool :=
  let n := Z.of_N (N_of_ascii c) in
  ((9 <=? n) && (n <=? 13)) || (n =? 32) || (n =? 133) || (n =? 160).

Fixpoint lstrip_space (s : string) : string :=
  match s with
  | String c s' => if is_space c then lstrip_space s' else s
  | EmptyString => s
  end.

Fixpoint rstrip_space (s : string) : string :=
  match s with
  | String c s' =>
      match rstrip_space s' with
      | EmptyString => if is_space c then EmptyString else String c EmptyString
      | t => String c t
      end
  | EmptyString => s
  end.

(** The digits of a hexadecimal numeral, most significant first. *)
Fixpoint hex_digits (acc : Z) (s : string) : option Z :=
  match s with
  | EmptyString => Some acc
  | String c s' => d <- hex_digit c ;; hex_digits (16 * acc + d) s'
  end.

(** [int(s, 16)] for a slice [s] of at most two characters: blanks around,
    an optional sign, then hexadecimal digits, at least one ([ValueError]
    otherwise).  The prefix [0x] and the digit separator [_] of longer
    numerals need three characters and never occur in such a slice. *)
Definition int16 (s : string) : option Z :=
  match rstrip_space (lstrip_space s) with
  | EmptyString => None
  | String "+" EmptyString => None
  | String "-" EmptyString => None
  | String "+" t => hex_digits 0 t
  | String "-" t => v <- hex_digits 0 t ;; Some (- v)
  | t => hex_digits 0 t
  end.

Definition hex_char (d : Z) : ascii :=
  if d <? 10 then ascii_of_N (Z.to_N (48 + d)) else ascii_of_N (Z.to_N (87 + d)).

(** [f"{n:02x}"] for [0 <= n <= 255]. *)
Definition format_02x (n : Z) : string :=
  String (hex_char (n / 16)) (String (hex_char (n mod 16)) EmptyString).

(** [s < t] on strings: by code point, a proper prefix first. *)
Fixpoint ltb (s t : string) : bool :=
  match s, t with
  | _, EmptyString => false
  | EmptyString, String _ _ => true
  | String a s', String b t' =>
      if (N_of_ascii a <? N_of_ascii b)%N then true
      else if (N_of_ascii b <? N_of_ascii a)%N then false
      else ltb s' t'
  end.

End PyStr.

(** [max(a, b)] and [min(a, b)] on [int]s. *)
Definition int_max (a b : Z) : Z := if a <? b then b else a.
Definition int_min (a b : Z) : Z := if b <? a then b else a.

(** ** Colour conversions ([palette.py], lines 9-62) *)

Definition hex_to_rgb (h : string) : option (Z * Z * Z) :=
  let h := PyStr.lstrip_hash h in
  r <- PyStr.int16 (PyStr.slice 0 2 h) ;;
  g <- PyStr.int16 (PyStr.slice 2 4 h) ;;
  b <- PyStr.int16 (PyStr.slice 4 6 h) ;;
  Some (r, g, b).

(** [rgb_to_hex] on [int] arguments, where [int(r)] is [r]. *)
Definition rgb_to_hex (r g b : Z) : string :=
  String "#" (PyStr.format_02x (int_max 0 (int_min 255 r))
              ++ PyStr.format_02x (int_max 0 (int_min 255 g))
              ++ PyStr.format_02x (int_max 0 (int_min 255 b))).

Definition rgb_to_hsl (r g b : Z) : option (float * float * float) :=
  '(h, l, s) <- colorsys.rgb_to_hls (Py.float_of_Z r / 255)%float
                                    (Py.float_of_Z g / 255)%float
                                    (Py.float_of_Z b / 255)%float ;;
  Some ((h * 360)%float, (s * 100)%float, (l * 100)%float).

Definition hsl_to_rgb (h s l : float) : option (Z * Z * Z) :=
  let '(r, g, b) :=
    colorsys.hls_to_rgb (h / 360)%float (l / 100)%float (s / 100)%float in
  r' <- Py.int_of_float (r * 255)%float ;;
  g' <- Py.int_of_float (g * 255)%float ;;
  b' <- Py.int_of_float (b * 255)%float ;;
  Some (r', g', b').

Definition hsl_to_hex (h s l : float) : option string :=
  '(r, g, b) <- hsl_to_rgb h s l ;; Some (rgb_to_hex r g b).

Definition hex_to_hsl (hexc : string) : option (float * float * float) :=
  '(r, g, b) <- hex_to_rgb hexc ;; rgb_to_hsl r g b.

Definition lighten (hexc : string) (amount : float) : option string :=
  '(h, s, l) <- hex_to_hsl hexc ;; hsl_to_hex h s (Py.min 100 (l + amount)%float).

Definition darken (hexc : string) (amount : float) : option string :=
  '(h, s, l) <- hex_to_hsl hexc ;; hsl_to_hex h s (Py.max 0 (l - amount)%float).

Definition saturate (hexc : string) (amount : float) : option string :=
  '(h, s, l) <- hex_to_hsl hexc ;; hsl_to_hex h (Py.min 100 (s + amount)%float) l.

Definition desaturate (hexc : string) (amount : float) : option string :=
  '(h, s, l) <- hex_to_hsl hexc ;; hsl_to_hex h (Py.max 0 (s - amount)%float) l.

(** Lines 56-62, for a [float] factor: each channel is mixed in floats
    ([int + int * float]) and [rgb_to_hex] takes its [int()]. *)
Definition blend (hex1 hex2 : string) (factor : float) : option string :=
  '(r1, g1, b1) <- hex_to_rgb hex1 ;;
  '(r2, g2, b2) <- hex_to_rgb hex2 ;;
  let mix (a b : Z) :=
    (Py.float_of_Z a + Py.float_of_Z (b - a) * factor)%float in
  r <- Py.int_of_float (mix r1 r2) ;;
  g <- Py.int_of_float (mix g1 g2) ;;
  b <- Py.int_of_float (mix b1 b2) ;;
  Some (rgb_to_hex r g b).

(** ** Accent scoring and selection (lines 134-161) *)

Definition score_of_hsl (s l : float) : float :=
  let sat_score := (s / 100)%float in
  let light_score :=
    if PrimFloat.ltb l 15 || PrimFloat.ltb 85 l then 0.1%float
    else if PrimFloat.leb 25 l && PrimFloat.leb l 60 then 1%float
    else 0.5%float in
  let grey_penalty := if PrimFloat.ltb 20 s then 1%float else 0.1%float in
  (sat_score * light_score * grey_penalty)%float.

Definition score_accent (hexc : string) : option float :=
  '(h, s, l) <- hex_to_hsl hexc ;; Some (score_of_hsl s l).

(** [list.sort]: a stable sort that compares with [<] only; here by
    insertion, each element going behind the ones it is not less than. *)
Section Sort.
Context {A : Type} (lt : A -> A -> bool).

Fixpoint insert (x : A) (l : list A) : list A :=
  match l with
  | [] => [x]
  | y :: l' => if lt x y then x :: l else y :: insert x l'
  end.

Definition sort (l : list A) : list A :=
  fold_left (fun acc x => insert x acc) l [].

(** [l.sort(reverse=True)]: the list is reversed, sorted and reversed
    again, which keeps equal elements in their original order. *)
Definition sort_reverse (l : list A) : list A := rev (sort (rev l)).
End Sort.

(** [<] on the tuples [(score, colour)]: the first components that are not
    [==] decide. *)
Definition scored_lt (a b : float * string) : bool :=
  if PrimFloat.eqb (fst a) (fst b)
  then (if String.eqb (snd a) (snd b) then false else PyStr.ltb (snd a) (snd b))
  else PrimFloat.ltb (fst a) (fst b).

Fixpoint score_all (colors : list string) : option (list (float * string)) :=
  match colors with
  | [] => Some []
  | c :: cs => s <- score_accent c ;; rest <- score_all cs ;; Some ((s, c) :: rest)
  end.

Definition pick_accent (colors : list string) : option string :=
  match colors with
  | [] => Some "#c41e3a"%string
  | _ =>
      scored <- score_all colors ;;
      match sort_reverse scored_lt scored with
      | first :: _ => Some (snd first)
      | [] => None
      end
  end.

(** ** Palette derivation (lines 164-275) *)

(** Lines 169-174: the accent made saturated and visible. *)
Definition normalize_accent (a_s al : float) : float * float :=
  let a_s := if PrimFloat.ltb a_s 40 then 60%float else a_s in
  let al := if PrimFloat.ltb al 25 then 40%float else al in
  let al := if PrimFloat.ltb 65 al then 50%float else al in
  (a_s, al).

(** Lines 175-275, from the normalised accent. *)
Definition derive_palette (ah a_s al : float) (wallpaper_path : string)
  : option (list (string * string)) :=
  accent <- hsl_to_hex ah a_s al ;;
  bg_deepest <- hsl_to_hex ah (Py.max 3 (a_s * 0.05)%float) 3 ;;
  bg_main <- hsl_to_hex ah (Py.max 5 (a_s * 0.08)%float) 5.5 ;;
  bg_surface <- hsl_to_hex ah (Py.max 8 (a_s * 0.12)%float) 8.5 ;;
  bg_elevated <- hsl_to_hex ah (Py.max 12 (a_s * 0.15)%float) 12 ;;
  border <- hsl_to_hex ah (Py.max 15 (a_s * 0.2)%float) 17 ;;
  border_bright <- hsl_to_hex ah (Py.max 15 (a_s * 0.2)%float) 22 ;;
  accent_hover <- hsl_to_hex ah (Py.min 100 (a_s + 5)%float) (Py.min 65 (al + 8)%float) ;;
  accent_light <- hsl_to_hex ah (Py.min 100 (a_s + 10)%float) (Py.min 70 (al + 12)%float) ;;
  accent_soft <- hsl_to_hex (Py.rem_nz (ah + 15)%float 360) (Py.max 30 (a_s * 0.6)%float) al ;;
  accent_rose <- hsl_to_hex ah (Py.max 40 (a_s * 0.7)%float) (Py.min 75 (al + 20)%float) ;;
  text <- hsl_to_hex ah (Py.max 3 (a_s * 0.06)%float) 90 ;;
  text_muted <- hsl_to_hex ah (Py.max 4 (a_s * 0.08)%float) 63 ;;
  text_dim <- hsl_to_hex ah (Py.max 5 (a_s * 0.1)%float) 38 ;;
  green <- hsl_to_hex 130 50 46 ;;
  blue <- hsl_to_hex 228 40 55 ;;
  let mag_hue :=
    if PrimFloat.ltb ah 60 || PrimFloat.leb 300 ah then 320%float
    else Py.rem_nz (ah + 180)%float 360 in
  magenta <- hsl_to_hex mag_hue (Py.min 60 (Py.max 40 (a_s * 0.8)%float)) 50 ;;
  cyan <- hsl_to_hex 175 40 48 ;;
  insensitive_bg <- hsl_to_hex ah (Py.max 5 (a_s * 0.06)%float) 7 ;;
  let insensitive_fg := text_dim in
  warning <- hsl_to_hex 35 70 58 ;;
  ansi_black <- hsl_to_hex ah (Py.max 3 (a_s * 0.05)%float) 5 ;;
  ansi_yellow <- hsl_to_hex (Py.rem_nz (ah + 8)%float 360) (Py.min 80 a_s)
                            (Py.min 55 (al + 5)%float) ;;
  bright_green <- lighten green 8 ;;
  bright_blue <- lighten blue 10 ;;
  bright_magenta <- lighten magenta 12 ;;
  bright_cyan <- lighten cyan 10 ;;
  bright_white <- lighten text 3 ;;
  deep_maroon <- hsl_to_hex ah (Py.max 30 (a_s * 0.5)%float) 20 ;;
  Some [ ("wallpaper", wallpaper_path); ("bg_deepest", bg_deepest);
         ("bg_main", bg_main); ("bg_surface", bg_surface);
         ("bg_elevated", bg_elevated); ("border", border);
         ("border_bright", border_bright); ("accent", accent);
         ("accent_hover", accent_hover); ("accent_light", accent_light);
         ("accent_soft", accent_soft); ("accent_rose", accent_rose);
         ("text", text); ("text_muted", text_muted); ("text_dim", text_dim);
         ("green", green); ("blue", blue); ("magenta", magenta);
         ("cyan", cyan); ("warning", warning);
         ("insensitive_bg", insensitive_bg); ("insensitive_fg", insensitive_fg);
         ("deep_maroon", deep_maroon); ("ansi_black", ansi_black);
         ("ansi_red", accent); ("ansi_green", green);
         ("ansi_yellow", ansi_yellow); ("ansi_blue", blue);
         ("ansi_magenta", magenta); ("ansi_cyan", cyan);
         ("ansi_white", text_muted); ("ansi_bright_black", border);
         ("ansi_bright_red", accent_light); ("ansi_bright_green", bright_green);
         ("ansi_bright_yellow", accent_rose); ("ansi_bright_blue", bright_blue);
         ("ansi_bright_magenta", bright_magenta);
         ("ansi_bright_cyan", bright_cyan);
         ("ansi_bright_white", bright_white) ]%string.

Definition generate_palette (accent_hex wallpaper_path : string)
  : option (list (string * string)) :=
  '(ah, a_s, al) <- hex_to_hsl accent_hex ;;
  let '(a_s, al) := normalize_accent a_s al in
  derive_palette ah a_s al wallpaper_path.

(** ** GNOME accent name (lines 278-298) *)

Definition gnome_name_of_hsl (h s : float) : string :=
  if PrimFloat.ltb s 15 then "slate"
  else if PrimFloat.ltb h 15 || PrimFloat.leb 345 h then "red"
  else if PrimFloat.leb 15 h && PrimFloat.ltb h 40 then "orange"
  else if PrimFloat.leb 40 h && PrimFloat.ltb h 70 then "yellow"
  else if PrimFloat.leb 70 h && PrimFloat.ltb h 160 then "green"
  else if PrimFloat.leb 160 h && PrimFloat.ltb h 195 then "teal"
  else if PrimFloat.leb 195 h && PrimFloat.ltb h 260 then "blue"
  else if PrimFloat.leb 260 h && PrimFloat.ltb h 300 then "purple"
  else "pink".

Definition get_gnome_accent_name (accent_hex : string) : option string :=
  '(h, s, l) <- hex_to_hsl accent_hex ;; Some (gnome_name_of_hsl h s).

(** ** The parts of NumPy that [kmeans_colors] and [extract_colors] use

    An array of [uint8] pixels is a list of triples of integers in [0, 255];
    a float array of centroids is a list of triples of floats. *)

Definition pixel : Type := Z * Z * Z.
Definition centroid : Type := float * float * float.

Module np.

(** [arr.astype(float)] on one pixel. *)
Definition to_float (p : pixel) : centroid :=
  let '(r, g, b) := p in (Py.float_of_Z r, Py.float_of_Z g, Py.float_of_Z b).

(** [arr.astype(int)] on one float: C's cast, the least [int64] on a NaN or
    an infinity. *)
Definition to_int (x : float) : Z :=
  if PrimFloat.is_finite x then Py.trunc x else - 2 ^ 63.

(** [0., 1., ..., num - 1.], the [arange] of [linspace]. *)
Fixpoint arange (num : nat) (from : Z) : list float :=
  match num with
  | O => []
  | S num' => Py.float_of_Z from :: arange num' (from + 1)
  end.

(** [np.linspace(0, stop, num, dtype=int)] for [num >= 1] and [stop >= 0]:
    the samples [i * step] with the last one replaced by [stop], each
    floored and cast. *)
Definition linspace_int (stop : Z) (num : nat) : list Z :=
  let fstop := Py.float_of_Z stop in
  let div := Z.of_nat num - 1 in
  let y := arange num 0 in
  let y :=
    if 0 <? div then
      let step := (fstop / Py.float_of_Z div)%float in
      if PrimFloat.eqb step 0
      then map (fun v => (v / Py.float_of_Z div * fstop)%float) y
      else map (fun v => (v * step)%float) y
    else map (fun v => (v * fstop)%float) y in
  let y := map (fun v => (v + 0)%float) y in
  let y := if 0 <? div then removelast y ++ [fstop] else y in
  map (fun v => to_int (Py.float_of_Z (Py.floor v))) y.

(** [arr[i]] for one integer index: negative indices count from the end,
    [IndexError] out of range. *)
Definition index {A : Type} (arr : list A) (i : Z) : option A :=
  let n := Z.of_nat (List.length arr) in
  if (0 <=? i) && (i <? n) then nth_error arr (Z.to_nat i)
  else if (- n <=? i) && (i <? 0) then nth_error arr (Z.to_nat (i + n))
  else None.

(** [arr[indices]] for an array of indices. *)
Fixpoint take {A : Type} (arr : list A) (indices : list Z) : option (list A) :=
  match indices with
  | [] => Some []
  | i :: rest => x <- index arr i ;; xs <- take arr rest ;; Some (x :: xs)
  end.

(** [np.sum((p - c) ** 2)] over the three channels: the squares are added
    from left to right, channel by channel. *)
Definition sqdist (p c : centroid) : float :=
  let '(p0, p1, p2) := p in
  let '(c0, c1, c2) := c in
  let d0 := (p0 - c0)%float in
  let d1 := (p1 - c1)%float in
  let d2 := (p2 - c2)%float in
  (d0 * d0 + d1 * d1 + d2 * d2)%float.

(** [np.argmin] over a non-empty column [d :: ds]: the first least entry,
    a NaN counting as least. *)
Fixpoint argmin_from (best : float) (besti i : nat) (ds : list float) : nat :=
  match ds with
  | [] => besti
  | d :: ds' =>
      if PrimFloat.is_nan best then besti
      else if negb (PrimFloat.leb best d) then argmin_from d i (S i) ds'
      else argmin_from best besti (S i) ds'
  end.

Definition argmin (ds : list float) : nat :=
  match ds with
  | [] => O
  | d :: ds' => argmin_from d O 1%nat ds'
  end.

Definition add3 (a b : centroid) : centroid :=
  let '(a0, a1, a2) := a in
  let '(b0, b1, b2) := b in
  ((a0 + b0)%float, (a1 + b1)%float, (a2 + b2)%float).

(** [rows.mean(axis=0)] for a non-empty list of rows. *)
Definition mean (rows : list centroid) : centroid :=
  match rows with
  | [] => (PrimFloat.nan, PrimFloat.nan, PrimFloat.nan)
  | r :: rs =>
      let '(s0, s1, s2) := fold_left add3 rs r in
      let n := Py.float_of_Z (Z.of_nat (List.length rows)) in
      ((s0 / n)%float, (s1 / n)%float, (s2 / n)%float)
  end.

(** [np.isclose(a, b, atol=1)] on one entry, with the default [rtol]. *)
Definition isclose (a b : float) : bool :=
  (PrimFloat.leb (PrimFloat.abs (a - b)) (1 + 1e-5 * PrimFloat.abs b)
   && PrimFloat.is_finite b)
  || PrimFloat.eqb a b.

Definition allclose3 (a b : centroid) : bool :=
  let '(a0, a1, a2) := a in
  let '(b0, b1, b2) := b in
  isclose a0 b0 && isclose a1 b1 && isclose a2 b2.

Fixpoint allclose (a b : list centroid) : bool :=
  match a, b with
  | x :: a', y :: b' => allclose3 x y && allclose a' b'
  | _, _ => true
  end.

End np.

(** Lines 65-66, on two colours as arrays of three 8-bit channels, where
    every difference, square and sum is an exact integer, so that the order
    of the additions does not matter. *)
Definition color_distance (c1 c2 : pixel) : float :=
  PrimFloat.sqrt (np.sqdist (np.to_float c1) (np.to_float c2)).

(** ** k-means extraction (lines 69-109) *)

(** Lines 83-86 and 102-105: the index of the nearest centroid, per pixel. *)
Definition assign_labels (pixels : list pixel) (centroids : list centroid)
  : list nat :=
  map (fun p => np.argmin (map (np.sqdist (np.to_float p)) centroids)) pixels.

(** [pixels[labels == j]]. *)
Definition members (pixels : list pixel) (labels : list nat) (j : nat)
  : list pixel :=
  map fst (filter (fun pl => Nat.eqb (snd pl) j) (combine pixels labels)).

(** Lines 89-95: the mean of each cluster, an empty one keeping its centroid. *)
Definition recompute (pixels : list pixel) (labels : list nat)
  (centroids : list centroid) : list centroid :=
  map (fun jc =>
         match members pixels labels (fst jc) with
         | [] => snd jc
         | ms => np.mean (map np.to_float ms)
         end)
      (combine (seq 0 (List.length centroids)) centroids).

(** Lines 81-99: at most [max_iter] rounds, stopping when no centroid moved. *)
Fixpoint iterate (max_iter : nat) (pixels : list pixel)
  (centroids : list centroid) : list centroid :=
  match max_iter with
  | O => centroids
  | S rounds =>
      let new_centroids :=
        recompute pixels (assign_labels pixels centroids) centroids in
      if np.allclose centroids new_centroids then centroids
      else iterate rounds pixels new_centroids
  end.

(** [<] on the tuples [(count, j)]. *)
Definition count_lt (a b : Z * nat) : bool :=
  if fst a =? fst b then Nat.ltb (snd a) (snd b) else fst a <? fst b.

(** Lines 101-109: clusters by size, centroids cast to integers. *)
Definition rank (pixels : list pixel) (centroids : list centroid)
  : list (Z * nat) :=
  let labels := assign_labels pixels centroids in
  let counts :=
    map (fun j => (Z.of_nat (List.length (members pixels labels j)), j))
        (seq 0 (List.length centroids)) in
  sort_reverse count_lt counts.

Definition cast_centroid (c : centroid) : pixel :=
  let '(c0, c1, c2) := c in (np.to_int c0, np.to_int c1, np.to_int c2).

Definition kmeans_colors (pixels : list pixel) (k : Z) (max_iter : Z)
  : option (list pixel) :=
  let n := Z.of_nat (List.length pixels) in
  if n =? 0 then Some []
  else if k <=? 0 then None
  else
    let indices := np.linspace_int (n - 1) (Z.to_nat k) in
    initial <- np.take pixels indices ;;
    let centroids :=
      iterate (Z.to_nat max_iter) pixels (map np.to_float initial) in
    Some (map (fun cj => cast_centroid (nth (snd cj) centroids (0, 0, 0)%float))
              (rank pixels centroids)).

(** ** Pixel selection of [extract_colors] (lines 121-124) *)

Definition brightness (p : pixel) : Z := let '(r, g, b) := p in r + g + b.

Definition keep (p : pixel) : bool := (60 <? brightness p) && (brightness p <? 700).

Definition select_pixels (pixels : list pixel) : list pixel :=
  let filtered := filter keep pixels in
  if 1000 <? Z.of_nat (List.length filtered) then filtered else pixels.

(** Lines 130-131, on the selected and shuffled sample. *)
Definition colors_of_sample (sample : list pixel) (num_colors : Z)
  : option (list string) :=
  centroids <- kmeans_colors sample num_colors 20 ;;
  Some (map (fun c => let '(r, g, b) := c in rgb_to_hex r g b) centroids).

(** * Vocabulary of the properties *)

(** The integers [0, 1, ..., n - 1]. *)
Definition range (n : nat) : list Z := map Z.of_nat (seq 0 n).

(** A channel value, an integer in [0, 255]. *)
Definition is_channel (z : Z) : bool := (0 <=? z) && (z <=? 255).

(** The clamp that [rgb_to_hex] applies to a channel. *)
Definition clamp_channel (z : Z) : Z := int_max 0 (int_min 255 z).

(** [format_02x] writes two hexadecimal digits, none of them [#], that
    [int(_, 16)] reads back. *)
Definition format_parses (n : Z) : bool :=
  let a := PyStr.hex_char (n / 16) in
  let b := PyStr.hex_char (n mod 16) in
  negb (Ascii.eqb a "#")
  && match PyStr.int16 (String a (String b EmptyString)) with
     | Some v => v =? n
     | None => false
     end.

(** A colour string that [hex_to_rgb] reads as three channel values. *)
Definition is_color (c : string) : bool :=
  match hex_to_rgb c with
  | Some (r, g, b) => is_channel r && is_channel g && is_channel b
  | None => false
  end.

(** A channel as [rgb_to_hsl] hands it to [colorsys]. *)
Definition channel_float (z : Z) : float := (Py.float_of_Z z / 255)%float.

(** Lightness and saturation as [colorsys.rgb_to_hls] computes them: from the
    greatest and the least channel only. *)
Definition lightness_saturation (maxc minc : float) : option (float * float) :=
  let sumc := (maxc + minc)%float in
  let rangec := (maxc - minc)%float in
  let l := (sumc / 2)%float in
  if PrimFloat.eqb minc maxc then Some (l, 0%float)
  else
    s <- (if PrimFloat.leb l 0.5 then Py.div rangec sumc
          else Py.div rangec (2 - sumc)%float) ;;
    if PrimFloat.eqb rangec 0 then None else Some (l, s).

(** The hue of [colorsys.rgb_to_hls], once no division can fail. *)
Definition hue_of (r g b : float) : float :=
  let maxc := Py.max3 r g b in
  let minc := Py.min3 r g b in
  let rangec := (maxc - minc)%float in
  if PrimFloat.eqb minc maxc then 0%float
  else
    let rc := ((maxc - r) / rangec)%float in
    let gc := ((maxc - g) / rangec)%float in
    let bc := ((maxc - b) / rangec)%float in
    let h := if PrimFloat.eqb r maxc then (bc - gc)%float
             else if PrimFloat.eqb g maxc then (2 + rc - bc)%float
             else (4 + gc - rc)%float in
    Py.rem_nz (h / 6)%float 1.

(** The order of the floats that are not NaN, read on a key: the sign class,
    then exponent and mantissa (negated for a negative float). *)
Definition SFkey (f : spec_float) : Z * Z * Z :=
  match f with
  | S754_zero _ => (0, 0, 0)
  | S754_infinity s => (if s then -2 else 2, 0, 0)
  | S754_nan => (0, 0, 0)
  | S754_finite s m e => if s then (-1, - e, Zneg m) else (1, e, Zpos m)
  end.

Definition lex3 (x y : Z * Z * Z) : comparison :=
  let '(x1, x2, x3) := x in
  let '(y1, y2, y3) := y in
  match x1 ?= y1 with
  | Eq => match x2 ?= y2 with Eq => x3 ?= y3 | c => c end
  | c => c
  end.

Definition float_key (x : float) : Z * Z * Z := SFkey (Prim2SF x).

(** The score of a colour whose greatest and least channels are [i] and [j]
    exists and is a number. *)
Definition score_is_number (i j : Z) : bool :=
  match lightness_saturation (channel_float i) (channel_float j) with
  | Some (l, s) =>
      PrimFloat.eqb (score_of_hsl (s * 100) (l * 100))
                    (score_of_hsl (s * 100) (l * 100))
  | None => false
  end.

(** The digits that [format_02x] writes. *)
Definition lower_hex_chars : list ascii :=
  list_ascii_of_string "0123456789abcdef".

Definition is_lower_hex (c : ascii) : bool :=
  existsb (Ascii.eqb c) lower_hex_chars.

(** A string of the form [#rrggbb] in lower-case digits
    ([^#[0-9a-f]{6}$]). *)
Definition is_hex6 (s : string) : bool :=
  match s with
  | String h (String a (String b (String c (String d (String e
      (String f EmptyString)))))) =>
      Ascii.eqb h "#" && is_lower_hex a && is_lower_hex b && is_lower_hex c
      && is_lower_hex d && is_lower_hex e && is_lower_hex f
  | _ => false
  end.

(** [format_02x] writes lower-case digits. *)
Definition format_is_lower (n : Z) : bool :=
  is_lower_hex (PyStr.hex_char (n / 16))
  && is_lower_hex (PyStr.hex_char (n mod 16)).

(** Two lower-case digits are read as a channel that is written back as
    the same two digits. *)
Definition digits_round_trip (a b : ascii) : bool :=
  negb (Ascii.eqb a "#")
  && match PyStr.int16 (String a (String b EmptyString)) with
     | Some v =>
         is_channel v
         && String.eqb (PyStr.format_02x (clamp_channel v))
                       (String a (String b EmptyString))
     | None => false
     end.

(** The keys of the palette, in the order of the dictionary display of
    lines 235-275. *)
Definition role_keys : list string :=
  [ "wallpaper"; "bg_deepest"; "bg_main"; "bg_surface"; "bg_elevated";
    "border"; "border_bright"; "accent"; "accent_hover"; "accent_light";
    "accent_soft"; "accent_rose"; "text"; "text_muted"; "text_dim";
    "green"; "blue"; "magenta"; "cyan"; "warning"; "insensitive_bg";
    "insensitive_fg"; "deep_maroon"; "ansi_black"; "ansi_red"; "ansi_green";
    "ansi_yellow"; "ansi_blue"; "ansi_magenta"; "ansi_cyan"; "ansi_white";
    "ansi_bright_black"; "ansi_bright_red"; "ansi_bright_green";
    "ansi_bright_yellow"; "ansi_bright_blue"; "ansi_bright_magenta";
    "ansi_bright_cyan"; "ansi_bright_white" ]%string.

(** [d[key]] on a dictionary kept as the list of its items. *)
Fixpoint lookup (key : string) (d : list (string * string)) : option string :=
  match d with
  | [] => None
  | (k, v) :: d' => if String.eqb k key then Some v else lookup key d'
  end.

(** The hue table of [get_gnome_accent_name] read as thresholds alone. *)
Definition gnome_name_by_thresholds (h s : float) : string :=
  if PrimFloat.ltb s 15 then "slate"
  else if PrimFloat.ltb h 15 then "red"
  else if PrimFloat.ltb h 40 then "orange"
  else if PrimFloat.ltb h 70 then "yellow"
  else if PrimFloat.ltb h 160 then "green"
  else if PrimFloat.ltb h 195 then "teal"
  else if PrimFloat.ltb h 260 then "blue"
  else if PrimFloat.ltb h 300 then "purple"
  else if PrimFloat.ltb h 345 then "pink"
  else "red".

(** Channels keep their order as floats. *)
Definition channel_float_order (a b : Z) : bool :=
  Bool.eqb (PrimFloat.ltb (channel_float a) (channel_float b)) (a <? b).

(** The score of a colour whose greatest and least channels are [i] and
    [j <= i] lies between 0 and the float next above 1, and a grey's
    ([i = j]) is 0. *)
Definition score_in_range (i j : Z) : bool :=
  (i <? j)
  || match lightness_saturation (channel_float i) (channel_float j) with
     | Some (l, s) =>
         let score := score_of_hsl (s * 100) (l * 100) in
         PrimFloat.leb 0 score && PrimFloat.leb score 1.0000000000000002
         && (negb (i =? j) || PrimFloat.eqb score 0)
     | None => false
     end.

(** A grey is named [slate]. *)
Definition grey_is_slate (v : Z) : bool :=
  match rgb_to_hsl v v v with
  | Some (h, s, l) => String.eqb (gnome_name_of_hsl h s) "slate"
  | None => false
  end.

(** Mixing two channels with factor 0 gives the first one back, with
    factor 1 the second one. *)
Definition blend_ends (a b : Z) : bool :=
  let mix factor :=
    Py.int_of_float (Py.float_of_Z a + Py.float_of_Z (b - a) * factor)%float in
  match mix 0%float, mix 1%float with
  | Some x, Some y => (x =? a) && (y =? b)
  | _, _ => false
  end.

(** The squared difference of two channels does not depend on their order. *)
Definition square_symmetric (a b : Z) : bool :=
  let x := Py.float_of_Z a in
  let y := Py.float_of_Z b in
  PrimFloat.Leibniz.eqb ((x - y) * (x - y))%float ((y - x) * (y - x))%float.

(** The squared difference of a channel with itself is 0. *)
Definition square_self_zero (a : Z) : bool :=
  let x := Py.float_of_Z a in
  PrimFloat.Leibniz.eqb ((x - x) * (x - x))%float 0%float.

(** A pixel of an 8-bit image. *)
Definition is_pixel (p : pixel) : bool :=
  let '(r, g, b) := p in is_channel r && is_channel g && is_channel b.


(** The floats below [2^K] in magnitude. *)
Definition SBs (K : Z) (f : spec_float) : Prop :=
  match f with
  | S754_zero _ => True
  | S754_finite _ m e => Zpos m < 2 ^ (K - e)
  | _ => False
  end.

(** The same on primitive floats. *)
Definition SB (K : Z) (x : float) : Prop := SBs K (Prim2SF x).

(** Saturation and lightness for which the two levels [m1] and [m2] of
    [colorsys.hls_to_rgb] (or the lightness, on a grey) are at most 4 in
    magnitude. *)
Definition good_sl (s l : float) : bool :=
  let ll := (l / 100)%float in
  let ss := (s / 100)%float in
  if PrimFloat.eqb ss 0 then PrimFloat.leb (abs ll) 4
  else
    let m2 := if PrimFloat.leb ll 0.5 then (ll * (1 + ss))%float
              else (ll + ss - ll * ss)%float in
    let m1 := (2 * ll - m2)%float in
    PrimFloat.leb (abs m1) 4 && PrimFloat.leb (abs m2) 4.

(** Saturation and lightness of every role that [generate_palette] derives
    from the normalised accent, in the order of the source. *)
Definition role_levels (a_s al : float) : list (float * float) :=
  [ (a_s, al);
    (Py.max 3 (a_s * 0.05), 3);
    (Py.max 5 (a_s * 0.08), 5.5);
    (Py.max 8 (a_s * 0.12), 8.5);
    (Py.max 12 (a_s * 0.15), 12);
    (Py.max 15 (a_s * 0.2), 17);
    (Py.max 15 (a_s * 0.2), 22);
    (Py.min 100 (a_s + 5), Py.min 65 (al + 8));
    (Py.min 100 (a_s + 10), Py.min 70 (al + 12));
    (Py.max 30 (a_s * 0.6), al);
    (Py.max 40 (a_s * 0.7), Py.min 75 (al + 20));
    (Py.max 3 (a_s * 0.06), 90);
    (Py.max 4 (a_s * 0.08), 63);
    (Py.max 5 (a_s * 0.1), 38);
    (Py.min 60 (Py.max 40 (a_s * 0.8)), 50);
    (Py.max 5 (a_s * 0.06), 7);
    (Py.max 3 (a_s * 0.05), 5);
    (Py.min 80 a_s, Py.min 55 (al + 5));
    (Py.max 30 (a_s * 0.5), 20) ]%float.

(** Every role of an accent whose greatest and least channels are [i] and
    [j <= i] has such saturation and lightness. *)
Definition palette_good (i j : Z) : bool :=
  (i <? j)
  || match lightness_saturation (channel_float i) (channel_float j) with
     | Some (l, s) =>
         let '(a_s, al) := normalize_accent (s * 100) (l * 100) in
         forallb (fun sl => good_sl (fst sl) (snd sl)) (role_levels a_s al)
     | None => false
     end.

(** So has a colour with these channels once [lighten] has raised its
    lightness by [amount]. *)
Definition lighten_good (amount : float) (i j : Z) : bool :=
  (i <? j)
  || match lightness_saturation (channel_float i) (channel_float j) with
     | Some (l, s) => good_sl (s * 100) (Py.min 100 (l * 100 + amount))
     | None => false
     end.

(** And once [darken] has lowered it by [amount]. *)
Definition darken_good (amount : float) (i j : Z) : bool :=
  (i <? j)
  || match lightness_saturation (channel_float i) (channel_float j) with
     | Some (l, s) => good_sl (s * 100) (Py.max 0 (l * 100 - amount))
     | None => false
     end.

(** RGB to HSL and back. *)
Definition round_trip (r g b : Z) : option (Z * Z * Z) :=
  '(h, s, l) <- rgb_to_hsl r g b ;; hsl_to_rgb h s l.

(** The round trip changes no channel by more than one unit. *)
Definition round_trip_close (r g b : Z) : bool :=
  match round_trip r g b with
  | Some (r', g', b') =>
      (Z.abs (r - r') <=? 1) && (Z.abs (g - g') <=? 1)
      && (Z.abs (b - b') <=? 1)
  | None => false
  end.

(** A grey comes back as a grey, the same or one unit darker. *)
Definition round_trip_grey (v : Z) : bool :=
  match round_trip v v v with
  | Some (r', g', b') =>
      (r' =? g') && (g' =? b') && (v - 1 <=? r') && (r' <=? v)
  | None => false
  end.

(** The round trip of the colours that have the channels [x] and [y] next
    to a channel equal to [c], wherever it stands. *)
Definition round_trip_with (c x y : Z) : bool :=
  round_trip_close c x y && round_trip_close x c y && round_trip_close x y c.

(** [int()] cuts the fraction of [n + 0.5] and of [-(n + 0.5)] off, toward
    zero. *)
Definition cuts_half (n : Z) : bool :=
  match Py.int_of_float (Py.float_of_Z n + 0.5)%float,
        Py.int_of_float (- (Py.float_of_Z n + 0.5))%float with
  | Some a, Some b => (a =? n) && (b =? - n)
  | _, _ => false
  end.




(** The population of cluster [j]: the pixels whose nearest centroid is the
    [j]-th one (the [np.sum(labels == j)] of line 106). *)
Definition cluster_size (pixels : list pixel) (centroids : list centroid)
  (j : nat) : Z :=
  Z.of_nat (List.length (members pixels (assign_labels pixels centroids) j)).

(** The centroids after the loop of lines 81-99, from the initial ones. *)
Definition final_centroids (pixels initial : list pixel) (max_iter : Z)
  : list centroid :=
  iterate (Z.to_nat max_iter) pixels (map np.to_float initial).

(** * Properties *)

(** ** Empty inputs *)

(** C9: an empty pixel sample is not an error: [kmeans_colors] returns the
    empty sequence on it, whatever [k] and [max_iter], and [pick_accent] on
    an empty list returns the fallback red [#c41e3a]. *)
Theorem empty_sample_is_not_an_error :
  (forall k max_iter, kmeans_colors [] k max_iter = Some [])
  /\ pick_accent [] = Some "#c41e3a"%string.
Proof. split; [intros k max_iter|]; reflexivity. Qed.

(** ** Accent normalisation *)

Lemma normalize_accent_cases (a_s al : float) :
  normalize_accent a_s al =
  ((if PrimFloat.ltb a_s 40 then 60 else a_s)%float,
   (if PrimFloat.ltb al 25 then 40
    else if PrimFloat.ltb 65 al then 50 else al)%float).
Proof.
  unfold normalize_accent.
  destruct (PrimFloat.ltb al 25); [reflexivity|].
  destruct (PrimFloat.ltb 65 al); reflexivity.
Qed.

(** C7: [generate_palette] derives every role from the normalised accent:
    a saturation below 40 becomes 60, a lightness below 25 becomes 40 and a
    lightness above 65 becomes 50; the accent [#000000] (hue, saturation and
    lightness 0) is normalised to saturation 60 and lightness 40. *)
Theorem generate_palette_normalizes_accent :
  (forall accent_hex wallpaper_path,
     generate_palette accent_hex wallpaper_path =
     match hex_to_hsl accent_hex with
     | Some (ah, a_s, al) =>
         derive_palette ah
           (if PrimFloat.ltb a_s 40 then 60 else a_s)%float
           (if PrimFloat.ltb al 25 then 40
            else if PrimFloat.ltb 65 al then 50 else al)%float
           wallpaper_path
     | None => None
     end)
  /\ hex_to_hsl "#000000" = Some (0, 0, 0)%float
  /\ normalize_accent 0 0 = (60, 40)%float
  /\ (forall wallpaper_path,
        generate_palette "#000000" wallpaper_path
        = derive_palette 0 60 40 wallpaper_path).
Proof.
  split; [|split; [|split]].
  - intros accent_hex wallpaper_path. unfold generate_palette.
    destruct (hex_to_hsl accent_hex) as [[[ah a_s] al]|]; [|reflexivity].
    rewrite normalize_accent_cases. reflexivity.
  - vm_compute. reflexivity.
  - vm_compute. reflexivity.
  - intros wallpaper_path. unfold generate_palette.
    replace (hex_to_hsl "#000000") with (Some (0, 0, 0)%float)
      by (vm_compute; reflexivity).
    replace (normalize_accent 0 0) with (60, 40)%float
      by (vm_compute; reflexivity).
    reflexivity.
Qed.

(** ** GNOME accent names *)

(** C4, as the code has it: a saturation of exactly 15.0 is not below 15,
    so the colour [#171111] (hue 0, saturation 15.0) is named by the hue
    table, not [slate]. *)
Lemma saturation_15_is_not_slate :
  hex_to_hsl "#171111" = Some (0, 15, 7.8431372549019605)%float
  /\ get_gnome_accent_name "#171111" = Some "red"%string
  /\ gnome_name_of_hsl 100 15 = "green"%string.
Proof. repeat split; vm_compute; reflexivity. Qed.

(** ** Ranges *)

Lemma in_range (n : nat) (z : Z) : 0 <= z < Z.of_nat n -> In z (range n).
Proof.
  intros H. unfold range. apply in_map_iff. exists (Z.to_nat z). split.
  - lia.
  - apply in_seq. lia.
Qed.

Lemma forallb_range (f : Z -> bool) (n : nat) :
  forallb f (range n) = true -> forall z, 0 <= z < Z.of_nat n -> f z = true.
Proof.
  intros H z Hz. rewrite forallb_forall in H. apply H, in_range, Hz.
Qed.

Lemma clamp_channel_range (z : Z) : 0 <= clamp_channel z <= 255.
Proof.
  unfold clamp_channel, int_max, int_min.
  destruct (Z.ltb_spec z 255).
  - destruct (Z.ltb_spec 0 z); lia.
  - destruct (Z.ltb_spec 0 255); lia.
Qed.

(** ** Pixel selection *)

(** C6, as the code has it: a sample of which exactly 1000 pixels pass the
    filter is used unfiltered, its black pixel included. *)
Lemma exactly_1000_survivors_are_not_enough :
  let sample := repeat (100, 100, 100) 1000 ++ [(0, 0, 0)] in
  List.length (filter keep sample) = 1000%nat
  /\ select_pixels sample = sample
  /\ select_pixels sample <> filter keep sample.
Proof.
  cbv zeta. split; [|split].
  - vm_compute. reflexivity.
  - vm_compute. reflexivity.
  - intros H. apply (f_equal (@List.length pixel)) in H.
    vm_compute in H. discriminate H.
Qed.

(** C6, amended: the filter keeps, in order, exactly the pixels whose channel
    sum is neither at most 60 nor at least 700, and the filtered sample is
    used when more than 1000 pixels survive; with 1000 survivors or fewer
    the unfiltered sample is used. *)
Theorem select_pixels_needs_more_than_1000 (pixels : list pixel) :
  (forall p, In p (filter keep pixels)
             <-> In p pixels /\ ~ (brightness p <= 60 \/ 700 <= brightness p))
  /\ (1000 < Z.of_nat (List.length (filter keep pixels))
      -> select_pixels pixels = filter keep pixels)
  /\ (Z.of_nat (List.length (filter keep pixels)) <= 1000
      -> select_pixels pixels = pixels).
Proof.
  split; [|split].
  - intros p. rewrite filter_In. unfold keep.
    rewrite andb_true_iff, !Z.ltb_lt. intuition lia.
  - intros H. unfold select_pixels.
    apply Z.ltb_lt in H. rewrite H. reflexivity.
  - intros H. unfold select_pixels.
    apply Z.ltb_ge in H. rewrite H. reflexivity.
Qed.

(** ** Hexadecimal notation *)

Lemma format_parses_all : forallb format_parses (range 256) = true.
Proof. vm_compute. reflexivity. Qed.

Lemma format_02x_parses (n : Z) :
  0 <= n <= 255 ->
  exists a b,
    PyStr.format_02x n = String a (String b EmptyString)
    /\ Ascii.eqb a "#" = false
    /\ PyStr.int16 (String a (String b EmptyString)) = Some n.
Proof.
  intros Hn.
  assert (H : format_parses n = true).
  { apply (forallb_range _ 256 format_parses_all). simpl. lia. }
  unfold format_parses in H. cbv zeta in H.
  apply andb_true_iff in H. destruct H as [Ha Hb].
  exists (PyStr.hex_char (n / 16)), (PyStr.hex_char (n mod 16)).
  split; [reflexivity|]. split.
  - apply negb_true_iff in Ha. exact Ha.
  - destruct (PyStr.int16 _) as [v|]; [|discriminate Hb].
    apply Z.eqb_eq in Hb. rewrite Hb. reflexivity.
Qed.

Lemma hex_to_rgb_of_digits (a1 a2 b1 b2 c1 c2 : ascii) :
  Ascii.eqb a1 "#" = false ->
  hex_to_rgb (String "#" (String a1 (String a2 (String b1 (String b2
               (String c1 (String c2 EmptyString)))))))
  = (r <- PyStr.int16 (String a1 (String a2 EmptyString)) ;;
     g <- PyStr.int16 (String b1 (String b2 EmptyString)) ;;
     b <- PyStr.int16 (String c1 (String c2 EmptyString)) ;;
     Some (r, g, b)).
Proof.
  intros Ha. unfold hex_to_rgb.
  cbn [PyStr.lstrip_hash]. rewrite Ha.
  replace (Ascii.eqb "#" "#") with true by reflexivity.
  reflexivity.
Qed.

Lemma hex_to_rgb_rgb_to_hex (r g b : Z) :
  hex_to_rgb (rgb_to_hex r g b)
  = Some (clamp_channel r, clamp_channel g, clamp_channel b).
Proof.
  unfold rgb_to_hex. fold (clamp_channel r) (clamp_channel g) (clamp_channel b).
  destruct (format_02x_parses _ (clamp_channel_range r)) as (a1 & a2 & Er & Ha & Pr).
  destruct (format_02x_parses _ (clamp_channel_range g)) as (b1 & b2 & Eg & _ & Pg).
  destruct (format_02x_parses _ (clamp_channel_range b)) as (c1 & c2 & Eb & _ & Pb).
  rewrite Er, Eg, Eb. cbn [String.append].
  rewrite (hex_to_rgb_of_digits _ _ _ _ _ _ Ha), Pr, Pg, Pb. reflexivity.
Qed.

(** ** HSL to RGB *)

Lemma hsl_to_rgb_grey (h l : float) :
  hsl_to_rgb h 0 l
  = (t <- Py.int_of_float (l / 100 * 255)%float ;; Some (t, t, t)).
Proof.
  unfold hsl_to_rgb, colorsys.hls_to_rgb.
  replace (PrimFloat.eqb (0 / 100) 0) with true by reflexivity.
  destruct (Py.int_of_float (l / 100 * 255)); reflexivity.
Qed.

(** C5, as the code has it: a lightness of 200 is not clamped to 100 and the
    channels that come out are not clamped to 255; a channel value of 127.5
    becomes 127, not 128; and the hues 370 and 10 do not give the same
    colour. *)
Lemma hsl_to_rgb_neither_clamps_nor_rounds :
  hsl_to_rgb 0 0 200 = Some (510, 510, 510)
  /\ hsl_to_rgb 0 0 50 = Some (127, 127, 127)
  /\ hsl_to_rgb 370 50 50 = Some (191, 84, 63)
  /\ hsl_to_rgb 10 50 50 = Some (191, 85, 63).
Proof.
  split; [|split; [|split]]; vm_compute; reflexivity.
Qed.

(** For a colour that is not a grey the three channels are [int()] of the
    three values of [_v], computed from [s / 100] and [l / 100] as they come. *)
Lemma hsl_to_rgb_colored (h s l : float) :
  PrimFloat.eqb (s / 100) 0 = false ->
  let l' := (l / 100)%float in
  let s' := (s / 100)%float in
  let m2 := if PrimFloat.leb l' 0.5 then (l' * (1 + s'))%float
            else (l' + s' - l' * s')%float in
  let m1 := (2 * l' - m2)%float in
  hsl_to_rgb h s l
  = (r <- Py.int_of_float
            (colorsys._v m1 m2 (h / 360 + colorsys.ONE_THIRD) * 255)%float ;;
     g <- Py.int_of_float (colorsys._v m1 m2 (h / 360) * 255)%float ;;
     b <- Py.int_of_float
            (colorsys._v m1 m2 (h / 360 - colorsys.ONE_THIRD) * 255)%float ;;
     Some (r, g, b)).
Proof.
  intros H. cbv zeta. unfold hsl_to_rgb, colorsys.hls_to_rgb.
  rewrite H. reflexivity.
Qed.

(** The hue is used only through the three remainders modulo 1. *)
Lemma hsl_to_rgb_hue_modulo_1 (h h' s l : float) :
  Py.rem_nz (h / 360 + colorsys.ONE_THIRD) 1
  = Py.rem_nz (h' / 360 + colorsys.ONE_THIRD) 1 ->
  Py.rem_nz (h / 360) 1 = Py.rem_nz (h' / 360) 1 ->
  Py.rem_nz (h / 360 - colorsys.ONE_THIRD) 1
  = Py.rem_nz (h' / 360 - colorsys.ONE_THIRD) 1 ->
  hsl_to_rgb h s l = hsl_to_rgb h' s l.
Proof.
  intros H1 H2 H3. unfold hsl_to_rgb, colorsys.hls_to_rgb.
  destruct (PrimFloat.eqb (s / 100) 0); [reflexivity|].
  unfold colorsys._v. rewrite H1, H2, H3. reflexivity.
Qed.

Lemma int_of_float_cuts_half (n : Z) :
  0 <= n <= 255 ->
  Py.int_of_float (Py.float_of_Z n + 0.5)%float = Some n
  /\ Py.int_of_float (- (Py.float_of_Z n + 0.5))%float = Some (- n).
Proof.
  intros Hn.
  assert (A : forallb cuts_half (range 256) = true)
    by (vm_compute; reflexivity).
  pose proof (forallb_range cuts_half 256 A n ltac:(lia)) as C.
  unfold cuts_half in C.
  destruct (Py.int_of_float (Py.float_of_Z n + 0.5)%float) as [a|];
    [|discriminate C].
  destruct (Py.int_of_float (- (Py.float_of_Z n + 0.5))%float) as [b|];
    [|discriminate C].
  apply andb_true_iff in C. destruct C as [Ca Cb].
  apply Z.eqb_eq in Ca. apply Z.eqb_eq in Cb. subst a b. split; reflexivity.
Qed.

(** C5, amended: [hsl_to_rgb] clamps neither saturation and lightness nor
    the channels, uses the hue only through remainders modulo 1 of
    [h / 360] and of [h / 360] plus and minus a third, and cuts each channel's
    fraction off.  For a colour with [s / 100] not zero the channels are
    [int()] of the three values of [_v] times 255, with [m1] and [m2] computed
    from [s / 100] and [l / 100] as they come; for a grey (saturation 0) every
    channel is [int(l / 100 * 255)], for any hue and lightness.  Two hues with
    the same three remainders give the same colour, as 0, 360 and 720 do.
    Saturation 200 at lightness 50 gives [(382, -127, -127)], lightness 150
    at saturation 100 and hue 120 gives [(510, 255, 510)], and lightness -20
    gives [(-102, 0, 0)].  [int()] of [n + 0.5] is [n] and of [-(n + 0.5)] is
    [-n] for every [n] from 0 to 255.  The clamp to [0, 255] is
    [rgb_to_hex]'s: reading back what it writes gives the three channels
    clamped, so [hsl_to_hex] always names a colour with channels in
    [0, 255]. *)
Theorem hsl_to_rgb_truncates_and_rgb_to_hex_clamps :
  (forall h s l,
     PrimFloat.eqb (s / 100) 0 = false ->
     let l' := (l / 100)%float in
     let s' := (s / 100)%float in
     let m2 := if PrimFloat.leb l' 0.5 then (l' * (1 + s'))%float
               else (l' + s' - l' * s')%float in
     let m1 := (2 * l' - m2)%float in
     hsl_to_rgb h s l
     = (r <- Py.int_of_float
               (colorsys._v m1 m2 (h / 360 + colorsys.ONE_THIRD) * 255)%float ;;
        g <- Py.int_of_float (colorsys._v m1 m2 (h / 360) * 255)%float ;;
        b <- Py.int_of_float
               (colorsys._v m1 m2 (h / 360 - colorsys.ONE_THIRD) * 255)%float ;;
        Some (r, g, b)))
  /\ (forall h l,
        hsl_to_rgb h 0 l
        = (t <- Py.int_of_float (l / 100 * 255)%float ;; Some (t, t, t)))
  /\ (forall m1 m2 x y,
        Py.rem_nz x 1 = Py.rem_nz y 1 ->
        colorsys._v m1 m2 x = colorsys._v m1 m2 y)
  /\ (forall h h' s l,
        Py.rem_nz (h / 360 + colorsys.ONE_THIRD) 1
        = Py.rem_nz (h' / 360 + colorsys.ONE_THIRD) 1 ->
        Py.rem_nz (h / 360) 1 = Py.rem_nz (h' / 360) 1 ->
        Py.rem_nz (h / 360 - colorsys.ONE_THIRD) 1
        = Py.rem_nz (h' / 360 - colorsys.ONE_THIRD) 1 ->
        hsl_to_rgb h s l = hsl_to_rgb h' s l)
  /\ (hsl_to_rgb 0 50 50 = Some (191, 63, 63)
      /\ hsl_to_rgb 360 50 50 = Some (191, 63, 63)
      /\ hsl_to_rgb 720 50 50 = Some (191, 63, 63))
  /\ (hsl_to_rgb 0 200 50 = Some (382, -127, -127)
      /\ hsl_to_rgb 0 100 50 = Some (255, 0, 0)
      /\ hsl_to_rgb 120 100 150 = Some (510, 255, 510)
      /\ hsl_to_rgb 120 100 100 = Some (255, 255, 255)
      /\ hsl_to_rgb 0 100 (-20) = Some (-102, 0, 0)
      /\ hsl_to_hex 0 200 50 = Some "#ff0000"%string)
  /\ (forall n, 0 <= n <= 255 ->
        Py.int_of_float (Py.float_of_Z n + 0.5)%float = Some n
        /\ Py.int_of_float (- (Py.float_of_Z n + 0.5))%float = Some (- n))
  /\ Py.int_of_float 127.5 = Some 127
  /\ Py.int_of_float (-0.5) = Some 0
  /\ (forall r g b,
        hex_to_rgb (rgb_to_hex r g b)
        = Some (clamp_channel r, clamp_channel g, clamp_channel b))
  /\ (forall z, 0 <= clamp_channel z <= 255
                /\ (0 <= z <= 255 -> clamp_channel z = z)
                /\ (z < 0 -> clamp_channel z = 0)
                /\ (255 < z -> clamp_channel z = 255))
  /\ (forall h s l r g b,
        hsl_to_rgb h s l = Some (r, g, b) ->
        exists hexc,
          hsl_to_hex h s l = Some hexc
          /\ hex_to_rgb hexc
             = Some (clamp_channel r, clamp_channel g, clamp_channel b)).
Proof.
  split; [|split; [|split; [|split; [|split; [|split; [|split; [|split;
    [|split; [|split; [|split]]]]]]]]]].
  - exact hsl_to_rgb_colored.
  - exact hsl_to_rgb_grey.
  - intros m1 m2 x y H. unfold colorsys._v. rewrite H. reflexivity.
  - exact hsl_to_rgb_hue_modulo_1.
  - split; [|split]; vm_compute; reflexivity.
  - split; [|split; [|split; [|split; [|split]]]]; vm_compute; reflexivity.
  - exact int_of_float_cuts_half.
  - vm_compute. reflexivity.
  - vm_compute. reflexivity.
  - exact hex_to_rgb_rgb_to_hex.
  - intros z. split; [apply clamp_channel_range|].
    unfold clamp_channel, int_max, int_min.
    repeat split; intros Hz;
      destruct (Z.ltb_spec z 255);
      destruct (Z.ltb_spec 0 z); destruct (Z.ltb_spec 0 255); lia.
  - intros h s l r g b H. exists (rgb_to_hex r g b). split.
    + unfold hsl_to_hex. rewrite H. reflexivity.
    + apply hex_to_rgb_rgb_to_hex.
Qed.

(** ** Sorting *)

Lemma StronglySorted_app {A : Type} (R : A -> A -> Prop) (l1 l2 : list A) :
  StronglySorted R l1 -> StronglySorted R l2 ->
  (forall x y, In x l1 -> In y l2 -> R x y) ->
  StronglySorted R (l1 ++ l2).
Proof.
  intros H1 H2 H. induction H1 as [|a l1 H1 IH Ha]; simpl.
  - exact H2.
  - constructor.
    + apply IH. intros x y Hx Hy. apply H; [right; exact Hx|exact Hy].
    + apply Forall_app. split; [exact Ha|].
      apply Forall_forall. intros y Hy. apply H; [left; reflexivity|exact Hy].
Qed.

Lemma StronglySorted_rev {A : Type} (R : A -> A -> Prop) (l : list A) :
  StronglySorted R l -> StronglySorted (fun a b => R b a) (rev l).
Proof.
  intros H. induction H as [|a l H IH Ha]; simpl.
  - constructor.
  - apply StronglySorted_app.
    + exact IH.
    + repeat constructor.
    + intros x y Hx [Hy|[]]. subst y. apply in_rev in Hx.
      rewrite Forall_forall in Ha. apply Ha, Hx.
Qed.

Lemma StronglySorted_nth_error {A : Type} (R : A -> A -> Prop) (l : list A) :
  StronglySorted R l ->
  forall i j a b, (i < j)%nat ->
    nth_error l i = Some a -> nth_error l j = Some b -> R a b.
Proof.
  intros H. induction H as [|x l H IH Hx]; intros i j a b Hij Hi Hj.
  - destruct i; discriminate Hi.
  - destruct j as [|j]; [lia|]. simpl in Hj. destruct i as [|i].
    + simpl in Hi. injection Hi as <-. rewrite Forall_forall in Hx.
      apply Hx. eapply nth_error_In, Hj.
    + simpl in Hi. apply (IH i j); [lia|exact Hi|exact Hj].
Qed.

Section SortFacts.
Context {A : Type} (lt : A -> A -> bool) (P : A -> Prop).
Hypothesis lt_asym :
  forall a b, P a -> P b -> lt a b = true -> lt b a = false.
Hypothesis le_trans :
  forall a b c, P a -> P b -> P c ->
    lt b a = false -> lt c b = false -> lt c a = false.

Lemma insert_perm (x : A) (l : list A) : Permutation (insert lt x l) (x :: l).
Proof.
  induction l as [|y l IH]; simpl.
  - apply Permutation_refl.
  - destruct (lt x y).
    + apply Permutation_refl.
    + eapply perm_trans; [apply perm_skip, IH|apply perm_swap].
Qed.

Lemma sort_fold_perm (l acc : list A) :
  Permutation (fold_left (fun acc x => insert lt x acc) l acc) (l ++ acc).
Proof.
  revert acc. induction l as [|x l IH]; intros acc; simpl.
  - apply Permutation_refl.
  - eapply perm_trans; [apply IH|].
    eapply perm_trans; [apply Permutation_app_head, insert_perm|].
    apply Permutation_sym, Permutation_middle.
Qed.

Lemma sort_perm (l : list A) : Permutation (sort lt l) l.
Proof.
  unfold sort. eapply perm_trans; [apply sort_fold_perm|].
  rewrite app_nil_r. apply Permutation_refl.
Qed.

Lemma sort_reverse_perm (l : list A) : Permutation (sort_reverse lt l) l.
Proof.
  unfold sort_reverse.
  eapply perm_trans; [apply Permutation_sym, Permutation_rev|].
  eapply perm_trans; [apply sort_perm|].
  apply Permutation_sym, Permutation_rev.
Qed.

Lemma insert_sorted (x : A) (l : list A) :
  P x -> Forall P l ->
  StronglySorted (fun a b => lt b a = false) l ->
  StronglySorted (fun a b => lt b a = false) (insert lt x l).
Proof.
  intros Px Pl H. induction H as [|y l H IH Hy]; simpl.
  - repeat constructor.
  - inversion Pl as [|? ? Py Pl']; subst.
    rewrite Forall_forall in Hy, Pl'.
    destruct (lt x y) eqn:E.
    + constructor; [constructor; [exact H|apply Forall_forall; exact Hy]|].
      constructor; [apply lt_asym; assumption|].
      apply Forall_forall. intros z Hz.
      apply (le_trans x y z); auto.
    + constructor; [apply IH; apply Forall_forall; exact Pl'|].
      eapply Permutation_Forall; [apply Permutation_sym, insert_perm|].
      constructor; [exact E|apply Forall_forall; exact Hy].
Qed.

Lemma sort_fold_sorted (l acc : list A) :
  Forall P l -> Forall P acc ->
  StronglySorted (fun a b => lt b a = false) acc ->
  StronglySorted (fun a b => lt b a = false)
    (fold_left (fun acc x => insert lt x acc) l acc).
Proof.
  revert acc. induction l as [|x l IH]; intros acc Pl Pacc H; simpl.
  - exact H.
  - inversion Pl as [|? ? Px Pl']; subst. apply IH.
    + exact Pl'.
    + eapply Permutation_Forall; [apply Permutation_sym, insert_perm|].
      constructor; assumption.
    + apply insert_sorted; assumption.
Qed.

(** After [sort(reverse=True)] no element is less than a later one. *)
Lemma sort_reverse_sorted (l : list A) :
  Forall P l ->
  StronglySorted (fun a b => lt a b = false) (sort_reverse lt l).
Proof.
  intros Pl. unfold sort_reverse, sort.
  apply (StronglySorted_rev (fun a b => lt b a = false)).
  apply sort_fold_sorted.
  - eapply Permutation_Forall; [apply Permutation_rev|exact Pl].
  - constructor.
  - constructor.
Qed.
End SortFacts.

(** ** k-means: shapes *)

Lemma length_arange (num : nat) (from : Z) :
  List.length (np.arange num from) = num.
Proof.
  revert from. induction num as [|num IH]; intros from; simpl.
  - reflexivity.
  - rewrite IH. reflexivity.
Qed.

Lemma length_replace_last {A : Type} (l : list A) (a : A) :
  l <> [] -> List.length (removelast l ++ [a]) = List.length l.
Proof.
  intros H. rewrite (app_removelast_last a H) at 2.
  rewrite !length_app. reflexivity.
Qed.

(** [np.linspace(0, stop, num, dtype=int)] has [num] entries. *)
Lemma length_linspace_int (stop : Z) (num : nat) :
  List.length (np.linspace_int stop num) = num.
Proof.
  unfold np.linspace_int. rewrite length_map.
  destruct (0 <? Z.of_nat num - 1) eqn:E.
  - apply Z.ltb_lt in E. rewrite length_replace_last.
    + destruct (PrimFloat.eqb _ 0); rewrite !length_map; apply length_arange.
    + intros H. apply (f_equal (@List.length float)) in H.
      destruct (PrimFloat.eqb _ 0); rewrite !length_map, length_arange in H;
        simpl in H; lia.
  - rewrite !length_map. apply length_arange.
Qed.

Lemma length_take {A : Type} (arr : list A) (indices : list Z) (out : list A) :
  np.take arr indices = Some out -> List.length out = List.length indices.
Proof.
  revert out. induction indices as [|i rest IH]; intros out H; simpl in H.
  - injection H as <-. reflexivity.
  - destruct (np.index arr i) as [x|]; [|discriminate H].
    destruct (np.take arr rest) as [xs|]; [|discriminate H].
    injection H as <-. simpl. rewrite (IH xs eq_refl). reflexivity.
Qed.

Lemma length_recompute (pixels : list pixel) (labels : list nat)
  (centroids : list centroid) :
  List.length (recompute pixels labels centroids) = List.length centroids.
Proof.
  unfold recompute. rewrite length_map, length_combine, length_seq.
  apply Nat.min_id.
Qed.

(** The loop keeps the number of centroids. *)
Lemma length_iterate (max_iter : nat) (pixels : list pixel)
  (centroids : list centroid) :
  List.length (iterate max_iter pixels centroids) = List.length centroids.
Proof.
  revert centroids. induction max_iter as [|rounds IH]; intros centroids; simpl.
  - reflexivity.
  - destruct (np.allclose _ _); [reflexivity|].
    rewrite IH. apply length_recompute.
Qed.

(** ** k-means: the order of the result *)

Lemma count_lt_asym (a b : Z * nat) : count_lt a b = true -> count_lt b a = false.
Proof.
  unfold count_lt.
  destruct (Z.eqb_spec (fst a) (fst b)), (Z.eqb_spec (fst b) (fst a));
    rewrite ?Nat.ltb_lt, ?Nat.ltb_ge, ?Z.ltb_lt, ?Z.ltb_ge; lia.
Qed.

Lemma count_lt_trans (a b c : Z * nat) :
  count_lt b a = false -> count_lt c b = false -> count_lt c a = false.
Proof.
  unfold count_lt.
  destruct (Z.eqb_spec (fst b) (fst a)), (Z.eqb_spec (fst c) (fst b)),
    (Z.eqb_spec (fst c) (fst a));
    rewrite ?Nat.ltb_ge, ?Z.ltb_ge; lia.
Qed.

Lemma rank_perm (pixels : list pixel) (centroids : list centroid) :
  Permutation (rank pixels centroids)
    (map (fun j => (cluster_size pixels centroids j, j))
         (seq 0 (List.length centroids))).
Proof. unfold rank. apply sort_reverse_perm. Qed.

Lemma rank_sorted (pixels : list pixel) (centroids : list centroid) :
  StronglySorted (fun a b => count_lt a b = false) (rank pixels centroids).
Proof.
  unfold rank. apply (sort_reverse_sorted count_lt (fun _ => True)).
  - intros a b _ _. apply count_lt_asym.
  - intros a b c _ _ _. apply count_lt_trans.
  - apply Forall_forall. intros x _. exact I.
Qed.

Lemma rank_order_perm (pixels : list pixel) (centroids : list centroid) :
  Permutation (map snd (rank pixels centroids)) (seq 0 (List.length centroids)).
Proof.
  eapply perm_trans; [apply Permutation_map, rank_perm|].
  rewrite map_map. simpl. rewrite map_id. apply Permutation_refl.
Qed.

Lemma rank_entries (pixels : list pixel) (centroids : list centroid)
  (c : Z) (j : nat) :
  In (c, j) (rank pixels centroids) -> c = cluster_size pixels centroids j.
Proof.
  intros H. apply (Permutation_in _ (rank_perm pixels centroids)) in H.
  apply in_map_iff in H. destruct H as (j' & E & _).
  injection E as <- <-. reflexivity.
Qed.

(** Clusters come by population, largest first, and among clusters of one
    population the greater index first. *)
Lemma rank_descending (pixels : list pixel) (centroids : list centroid)
  (i j a b : nat) :
  (i < j)%nat ->
  nth_error (map snd (rank pixels centroids)) i = Some a ->
  nth_error (map snd (rank pixels centroids)) j = Some b ->
  cluster_size pixels centroids b < cluster_size pixels centroids a
  \/ (cluster_size pixels centroids b = cluster_size pixels centroids a
      /\ (b < a)%nat).
Proof.
  intros Hij Hi Hj.
  assert (Hab : a <> b).
  { intros ->.
    assert (ND : NoDup (map snd (rank pixels centroids))).
    { eapply Permutation_NoDup;
        [apply Permutation_sym, rank_order_perm|apply seq_NoDup]. }
    rewrite NoDup_nth_error in ND.
    assert (i = j); [|lia].
    apply ND; [apply nth_error_Some; congruence|congruence]. }
  rewrite nth_error_map in Hi, Hj.
  destruct (nth_error (rank pixels centroids) i) as [[ca a']|] eqn:Ei;
    [|discriminate Hi].
  destruct (nth_error (rank pixels centroids) j) as [[cb b']|] eqn:Ej;
    [|discriminate Hj].
  simpl in Hi, Hj. injection Hi as ->. injection Hj as ->.
  pose proof (rank_entries _ _ _ _ (nth_error_In _ _ Ei)) as Ea.
  pose proof (rank_entries _ _ _ _ (nth_error_In _ _ Ej)) as Eb.
  pose proof (StronglySorted_nth_error _ _ (rank_sorted pixels centroids)
                _ _ _ _ Hij Ei Ej) as S.
  subst ca cb. unfold count_lt in S. simpl in S.
  destruct (Z.eqb_spec (cluster_size pixels centroids a)
                       (cluster_size pixels centroids b)).
  - apply Nat.ltb_ge in S. right. split; [congruence|lia].
  - apply Z.ltb_ge in S. left. lia.
Qed.

(** C3, as the code has it: two clusters of one pixel each come with the
    greater index first, not the smaller; and a centroid at 5/3 is returned
    as 1, its fraction cut off, not as 2. *)
Lemma kmeans_ties_come_in_descending_index :
  kmeans_colors [(0, 0, 0); (255, 255, 255)] 2 20
  = Some [(255, 255, 255); (0, 0, 0)]
  /\ kmeans_colors [(0, 0, 0); (2, 2, 2); (3, 3, 3)] 1 20 = Some [(1, 1, 1)].
Proof. split; vm_compute; reflexivity. Qed.

(** C3, amended: on a non-empty sample, what [kmeans_colors] returns is the
    final centroids (those the loop ends with, from the evenly spaced initial
    pixels), each cast to integers by cutting its fraction off, in the order
    of cluster population descending, clusters of equal population by
    cluster index descending. *)
Theorem kmeans_colors_order (pixels : list pixel) (k max_iter : Z)
  (out : list pixel) :
  pixels <> [] ->
  kmeans_colors pixels k max_iter = Some out ->
  exists (initial : list pixel) (order : list nat),
    let centroids := final_centroids pixels initial max_iter in
    np.take pixels
      (np.linspace_int (Z.of_nat (List.length pixels) - 1) (Z.to_nat k))
    = Some initial
    /\ List.length centroids = Z.to_nat k
    /\ Permutation order (seq 0 (Z.to_nat k))
    /\ out = map (fun j => cast_centroid (nth j centroids (0, 0, 0)%float)) order
    /\ (forall i j a b,
          (i < j)%nat ->
          nth_error order i = Some a -> nth_error order j = Some b ->
          cluster_size pixels centroids b < cluster_size pixels centroids a
          \/ (cluster_size pixels centroids b = cluster_size pixels centroids a
              /\ (b < a)%nat)).
Proof.
  intros Hne Hout. unfold kmeans_colors in Hout.
  destruct (Z.eqb_spec (Z.of_nat (List.length pixels)) 0) as [E|E].
  { destruct pixels; [congruence|simpl in E; lia]. }
  destruct (k <=? 0); [discriminate Hout|].
  destruct (np.take pixels _) as [initial|] eqn:Et; [|discriminate Hout].
  injection Hout as <-.
  exists initial, (map snd (rank pixels (final_centroids pixels initial max_iter))).
  cbv zeta.
  assert (L : List.length (final_centroids pixels initial max_iter) = Z.to_nat k).
  { unfold final_centroids.
    rewrite length_iterate, length_map, (length_take _ _ _ Et).
    apply length_linspace_int. }
  split; [reflexivity|]. split; [exact L|]. split; [|split].
  - rewrite <- L. apply rank_order_perm.
  - rewrite map_map. reflexivity.
  - intros i j a b. apply rank_descending.
Qed.

Lemma kmeans_colors_order_witness :
  exists (initial : list pixel) (order : list nat),
    let centroids := final_centroids [(0, 0, 0); (255, 255, 255)] initial 20 in
    np.take [(0, 0, 0); (255, 255, 255)]
      (np.linspace_int
         (Z.of_nat (List.length [(0, 0, 0); (255, 255, 255)]) - 1) (Z.to_nat 2))
    = Some initial
    /\ List.length centroids = Z.to_nat 2
    /\ Permutation order (seq 0 (Z.to_nat 2))
    /\ [(255, 255, 255); (0, 0, 0)]
       = map (fun j => cast_centroid (nth j centroids (0, 0, 0)%float)) order
    /\ (forall i j a b,
          (i < j)%nat ->
          nth_error order i = Some a -> nth_error order j = Some b ->
          cluster_size [(0, 0, 0); (255, 255, 255)] centroids b
          < cluster_size [(0, 0, 0); (255, 255, 255)] centroids a
          \/ (cluster_size [(0, 0, 0); (255, 255, 255)] centroids b
              = cluster_size [(0, 0, 0); (255, 255, 255)] centroids a
              /\ (b < a)%nat)).
Proof.
  apply (kmeans_colors_order [(0, 0, 0); (255, 255, 255)] 2 20).
  - discriminate.
  - vm_compute. reflexivity.
Defined.

(** ** The order of strings *)

Lemma str_ltb_irrefl (s : string) : PyStr.ltb s s = false.
Proof.
  induction s as [|a s IH]; simpl.
  - reflexivity.
  - rewrite N.ltb_irrefl. exact IH.
Qed.

Lemma str_ltb_asym (s t : string) :
  PyStr.ltb s t = true -> PyStr.ltb t s = false.
Proof.
  revert t. induction s as [|a s IH]; intros [|b t]; simpl; try congruence.
  destruct (N.ltb_spec (N_of_ascii a) (N_of_ascii b)),
    (N.ltb_spec (N_of_ascii b) (N_of_ascii a)); try lia; try congruence.
  apply IH.
Qed.

Lemma str_le_trans (a b c : string) :
  PyStr.ltb b a = false -> PyStr.ltb c b = false -> PyStr.ltb c a = false.
Proof.
  revert b c. induction a as [|x a IH]; intros [|y b] [|z c]; simpl;
    try congruence.
  destruct (N.ltb_spec (N_of_ascii y) (N_of_ascii x)),
    (N.ltb_spec (N_of_ascii x) (N_of_ascii y)),
    (N.ltb_spec (N_of_ascii z) (N_of_ascii y)),
    (N.ltb_spec (N_of_ascii y) (N_of_ascii z)),
    (N.ltb_spec (N_of_ascii z) (N_of_ascii x)),
    (N.ltb_spec (N_of_ascii x) (N_of_ascii z));
    try lia; try congruence.
  apply IH.
Qed.

(** ** The order of floats *)

Lemma lex3_Lt (x1 x2 x3 y1 y2 y3 : Z) :
  lex3 (x1, x2, x3) (y1, y2, y3) = Lt
  <-> x1 < y1 \/ (x1 = y1 /\ (x2 < y2 \/ (x2 = y2 /\ x3 < y3))).
Proof.
  unfold lex3.
  destruct (Z.compare_spec x1 y1), (Z.compare_spec x2 y2),
    (Z.compare_spec x3 y3); split; intros G; try discriminate G;
    try reflexivity; lia.
Qed.

Lemma lex3_Eq (x1 x2 x3 y1 y2 y3 : Z) :
  lex3 (x1, x2, x3) (y1, y2, y3) = Eq <-> x1 = y1 /\ x2 = y2 /\ x3 = y3.
Proof.
  unfold lex3.
  destruct (Z.compare_spec x1 y1), (Z.compare_spec x2 y2),
    (Z.compare_spec x3 y3); split; intros G; try discriminate G;
    try reflexivity; lia.
Qed.

Lemma SFcompare_key (f g : spec_float) :
  f <> S754_nan -> g <> S754_nan ->
  SFcompare f g = Some (lex3 (SFkey f) (SFkey g)).
Proof.
  intros Hf Hg.
  destruct f as [sf|sf| |sf mf ef]; try congruence;
    destruct g as [sg|sg| |sg mg eg]; try congruence;
    try destruct sf; try destruct sg; try reflexivity.
  unfold SFcompare, SFkey, lex3.
    replace (-1 ?= -1) with Eq by reflexivity.
    rewrite Z.compare_opp, (Z.compare_antisym ef eg).
    destruct (ef ?= eg); reflexivity.
Qed.

(** A float that is a number: it equals itself. *)
Lemma number_not_nan (x : float) :
  PrimFloat.eqb x x = true -> Prim2SF x <> S754_nan.
Proof.
  rewrite eqb_spec. intros H E. rewrite E in H. discriminate H.
Qed.

Lemma float_compare_key (x y : float) :
  PrimFloat.eqb x x = true -> PrimFloat.eqb y y = true ->
  SFcompare (Prim2SF x) (Prim2SF y) = Some (lex3 (float_key x) (float_key y)).
Proof.
  intros Hx Hy. apply SFcompare_key; apply number_not_nan; assumption.
Qed.

Lemma float_ltb_key (x y : float) :
  PrimFloat.eqb x x = true -> PrimFloat.eqb y y = true ->
  PrimFloat.ltb x y = true <-> lex3 (float_key x) (float_key y) = Lt.
Proof.
  intros Hx Hy. rewrite ltb_spec. unfold SFltb.
  rewrite (float_compare_key x y Hx Hy).
  destruct (lex3 _ _); split; congruence.
Qed.

Lemma float_eqb_key (x y : float) :
  PrimFloat.eqb x x = true -> PrimFloat.eqb y y = true ->
  PrimFloat.eqb x y = true <-> lex3 (float_key x) (float_key y) = Eq.
Proof.
  intros Hx Hy. rewrite eqb_spec. unfold SFeqb.
  rewrite (float_compare_key x y Hx Hy).
  destruct (lex3 _ _); split; congruence.
Qed.

Lemma float_leb_key (x y : float) :
  PrimFloat.eqb x x = true -> PrimFloat.eqb y y = true ->
  PrimFloat.leb x y = true <-> lex3 (float_key x) (float_key y) <> Gt.
Proof.
  intros Hx Hy. rewrite leb_spec. unfold SFleb.
  rewrite (float_compare_key x y Hx Hy).
  destruct (lex3 _ _); split; congruence.
Qed.

Lemma lex3_Gt (x1 x2 x3 y1 y2 y3 : Z) :
  lex3 (x1, x2, x3) (y1, y2, y3) = Gt
  <-> y1 < x1 \/ (y1 = x1 /\ (y2 < x2 \/ (y2 = x2 /\ y3 < x3))).
Proof.
  unfold lex3.
  destruct (Z.compare_spec x1 y1), (Z.compare_spec x2 y2),
    (Z.compare_spec x3 y3); split; intros G; try discriminate G;
    try reflexivity; lia.
Qed.

(** Hypotheses [b = true <-> P] on a boolean that has been destructed. *)
Ltac bool_iff :=
  repeat match goal with
         | H : true = true <-> _ |- _ =>
             apply proj1 in H; specialize (H eq_refl)
         | H : false = true <-> ?P |- _ =>
             let N := fresh "N" in
             assert (N : ~ P) by (let X := fresh in
                                  intros X; apply H in X; discriminate X);
             clear H
         end.

(** ** The order of scored candidates *)

Lemma scored_lt_alt (a b : float) (c c' : string) :
  scored_lt (a, c) (b, c')
  = if PrimFloat.eqb a b then PyStr.ltb c c' else PrimFloat.ltb a b.
Proof.
  unfold scored_lt. simpl. destruct (PrimFloat.eqb a b); [|reflexivity].
  destruct (String.eqb_spec c c') as [->|_]; [|reflexivity].
  symmetry. apply str_ltb_irrefl.
Qed.

Lemma scored_lt_irrefl (x : float * string) :
  PrimFloat.eqb (fst x) (fst x) = true -> scored_lt x x = false.
Proof.
  destruct x as [a c]. simpl. intros Ha.
  rewrite scored_lt_alt, Ha. apply str_ltb_irrefl.
Qed.

Lemma scored_lt_asym (x y : float * string) :
  PrimFloat.eqb (fst x) (fst x) = true ->
  PrimFloat.eqb (fst y) (fst y) = true ->
  scored_lt x y = true -> scored_lt y x = false.
Proof.
  destruct x as [a c], y as [b c']. simpl. intros Pa Pb.
  rewrite !scored_lt_alt.
  pose proof (float_eqb_key a b Pa Pb) as Eab.
  pose proof (float_eqb_key b a Pb Pa) as Eba.
  pose proof (float_ltb_key a b Pa Pb) as Lab.
  pose proof (float_ltb_key b a Pb Pa) as Lba.
  destruct (float_key a) as [[a1 a2] a3], (float_key b) as [[b1 b2] b3].
  rewrite lex3_Eq in Eab, Eba. rewrite lex3_Lt in Lab, Lba.
  destruct (PrimFloat.eqb a b), (PrimFloat.eqb b a),
    (PrimFloat.ltb a b), (PrimFloat.ltb b a);
    bool_iff; try (exfalso; lia); try congruence;
    try apply str_ltb_asym.
Qed.

Lemma scored_le_trans (x y z : float * string) :
  PrimFloat.eqb (fst x) (fst x) = true ->
  PrimFloat.eqb (fst y) (fst y) = true ->
  PrimFloat.eqb (fst z) (fst z) = true ->
  scored_lt y x = false -> scored_lt z y = false -> scored_lt z x = false.
Proof.
  destruct x as [a ca], y as [b cb], z as [c cc]. simpl. intros Pa Pb Pc.
  rewrite !scored_lt_alt.
  pose proof (float_eqb_key b a Pb Pa) as Eba.
  pose proof (float_eqb_key c b Pc Pb) as Ecb.
  pose proof (float_eqb_key c a Pc Pa) as Eca.
  pose proof (float_ltb_key b a Pb Pa) as Lba.
  pose proof (float_ltb_key c b Pc Pb) as Lcb.
  pose proof (float_ltb_key c a Pc Pa) as Lca.
  destruct (float_key a) as [[a1 a2] a3], (float_key b) as [[b1 b2] b3],
    (float_key c) as [[c1 c2] c3].
  rewrite lex3_Eq in Eba, Ecb, Eca. rewrite lex3_Lt in Lba, Lcb, Lca.
  destruct (PrimFloat.eqb b a), (PrimFloat.eqb c b), (PrimFloat.eqb c a),
    (PrimFloat.ltb b a), (PrimFloat.ltb c b), (PrimFloat.ltb c a);
    bool_iff; try (exfalso; lia); try congruence;
    try apply str_le_trans.
Qed.

(** What it means for a candidate not to be less than another one. *)
Lemma scored_not_lt (s s' : float) (c c' : string) :
  PrimFloat.eqb s s = true -> PrimFloat.eqb s' s' = true ->
  scored_lt (s, c) (s', c') = false ->
  PrimFloat.leb s' s = true
  /\ (PrimFloat.eqb s' s = true -> PyStr.ltb c c' = false).
Proof.
  intros Ps Ps'. rewrite scored_lt_alt.
  pose proof (float_eqb_key s s' Ps Ps') as E.
  pose proof (float_eqb_key s' s Ps' Ps) as E'.
  pose proof (float_ltb_key s s' Ps Ps') as L.
  pose proof (float_leb_key s' s Ps' Ps) as L'.
  destruct (float_key s) as [[a1 a2] a3], (float_key s') as [[b1 b2] b3].
  rewrite lex3_Eq in E, E'. rewrite lex3_Lt in L.
  assert (G : PrimFloat.leb s' s = true
              <-> ~ (a1 < b1 \/ (a1 = b1 /\ (a2 < b2 \/ (a2 = b2 /\ a3 < b3))))).
  { rewrite L'. rewrite <- lex3_Gt. tauto. }
  clear L'.
  destruct (PrimFloat.eqb s s'), (PrimFloat.eqb s' s), (PrimFloat.ltb s s'),
    (PrimFloat.leb s' s); bool_iff; intros H; try discriminate H;
    try (exfalso; lia); split; try reflexivity; try congruence;
    intros; try congruence; exfalso; lia.
Qed.

(** ** Lightness and saturation of a colour *)

Lemma max3_cases (r g b : float) :
  Py.max3 r g b = r \/ Py.max3 r g b = g \/ Py.max3 r g b = b.
Proof.
  unfold Py.max3, Py.max.
  destruct (PrimFloat.ltb r g);
    match goal with |- context [PrimFloat.ltb ?x b] =>
      destruct (PrimFloat.ltb x b) end; auto.
Qed.

Lemma min3_cases (r g b : float) :
  Py.min3 r g b = r \/ Py.min3 r g b = g \/ Py.min3 r g b = b.
Proof.
  unfold Py.min3, Py.min.
  destruct (PrimFloat.ltb g r);
    match goal with |- context [PrimFloat.ltb b ?x] =>
      destruct (PrimFloat.ltb b x) end; auto.
Qed.

(** [colorsys.rgb_to_hls] computes lightness and saturation from the
    greatest and the least channel, and fails only when they do. *)
Lemma rgb_to_hls_split (r g b : float) :
  colorsys.rgb_to_hls r g b
  = ('(l, s) <- lightness_saturation (Py.max3 r g b) (Py.min3 r g b) ;;
     Some (hue_of r g b, l, s)).
Proof.
  unfold colorsys.rgb_to_hls, lightness_saturation, hue_of. cbv zeta.
  destruct (PrimFloat.eqb (Py.min3 r g b) (Py.max3 r g b)); [reflexivity|].
  unfold Py.div.
  destruct (PrimFloat.leb _ 0.5);
    match goal with |- context [PrimFloat.eqb ?d 0] =>
      destruct (PrimFloat.eqb d 0) end; try reflexivity;
    destruct (PrimFloat.eqb (Py.max3 r g b - Py.min3 r g b) 0); reflexivity.
Qed.

Lemma score_numbers :
  forallb (fun i => forallb (score_is_number i) (range 256)) (range 256) = true.
Proof. vm_compute. reflexivity. Qed.

Lemma score_is_number_channels (i j : Z) :
  is_channel i = true -> is_channel j = true -> score_is_number i j = true.
Proof.
  unfold is_channel. rewrite !andb_true_iff, !Z.leb_le. intros Hi Hj.
  pose proof (forallb_range _ 256 score_numbers i) as H. simpl in H.
  apply (forallb_range _ 256 (H ltac:(lia))). simpl. lia.
Qed.

(** A colour with channels in [0, 255] has a score, and it is a number. *)
Lemma score_of_channels (r g b : Z) :
  is_channel r = true -> is_channel g = true -> is_channel b = true ->
  exists h s l,
    rgb_to_hsl r g b = Some (h, s, l)
    /\ PrimFloat.eqb (score_of_hsl s l) (score_of_hsl s l) = true.
Proof.
  intros Hr Hg Hb. unfold rgb_to_hsl.
  fold (channel_float r) (channel_float g) (channel_float b).
  rewrite rgb_to_hls_split.
  assert (H : exists i j,
             Py.max3 (channel_float r) (channel_float g) (channel_float b)
             = channel_float i
             /\ Py.min3 (channel_float r) (channel_float g) (channel_float b)
                = channel_float j
             /\ is_channel i = true /\ is_channel j = true).
  { destruct (max3_cases (channel_float r) (channel_float g) (channel_float b))
      as [E|[E|E]];
      destruct (min3_cases (channel_float r) (channel_float g) (channel_float b))
        as [F|[F|F]]; rewrite E, F; eauto 10. }
  destruct H as (i & j & -> & -> & Hi & Hj).
  pose proof (score_is_number_channels i j Hi Hj) as S.
  unfold score_is_number in S.
  destruct (lightness_saturation (channel_float i) (channel_float j))
    as [[l s]|]; [|discriminate S].
  eexists _, _, _. split; [reflexivity|exact S].
Qed.

Lemma score_accent_number (c : string) :
  is_color c = true ->
  exists s, score_accent c = Some s /\ PrimFloat.eqb s s = true.
Proof.
  unfold is_color, score_accent, hex_to_hsl.
  destruct (hex_to_rgb c) as [[[r g] b]|]; [|discriminate].
  rewrite !andb_true_iff. intros [[Hr Hg] Hb].
  destruct (score_of_channels r g b Hr Hg Hb) as (h & s & l & -> & S).
  eexists. split; [reflexivity|exact S].
Qed.

Lemma score_all_numbers (colors : list string) :
  Forall (fun c => is_color c = true) colors ->
  exists scored,
    score_all colors = Some scored
    /\ map snd scored = colors
    /\ Forall (fun x => score_accent (snd x) = Some (fst x)
                        /\ PrimFloat.eqb (fst x) (fst x) = true) scored.
Proof.
  induction 1 as [|c cs Hc _ IH]; simpl.
  - exists []. repeat split. constructor.
  - destruct (score_accent_number c Hc) as (s & Es & Ns).
    destruct IH as (rest & Er & Em & Ef).
    rewrite Es, Er. exists ((s, c) :: rest). split; [reflexivity|]. split.
    + simpl. rewrite Em. reflexivity.
    + constructor; [split; assumption|exact Ef].
Qed.

(** ** Accent selection *)

(** C2, as the code has it: black and white both score 0, and the one
    picked is white, the second in the list. *)
Lemma pick_accent_tie_is_not_first_encountered :
  score_accent "#000000" = Some 0%float
  /\ score_accent "#ffffff" = Some 0%float
  /\ pick_accent ["#000000"; "#ffffff"]%string = Some "#ffffff"%string.
Proof. split; [|split]; vm_compute; reflexivity. Qed.

(** C2, amended: for every non-empty list of colours with channels in
    [0, 255], [pick_accent] returns a candidate of the list whose score no
    other candidate's exceeds; among the candidates with that score it
    returns the one whose string is greatest (by code point), wherever it
    stands in the list. *)
Theorem pick_accent_takes_greatest (colors : list string) :
  colors <> [] ->
  Forall (fun c => is_color c = true) colors ->
  exists c s,
    pick_accent colors = Some c /\ In c colors /\ score_accent c = Some s
    /\ forall c', In c' colors ->
         exists s', score_accent c' = Some s'
           /\ PrimFloat.leb s' s = true
           /\ (PrimFloat.eqb s' s = true -> PyStr.ltb c c' = false).
Proof.
  intros Hne Hcol.
  destruct (score_all_numbers colors Hcol) as (scored & Es & Em & Ef).
  assert (Ep : pick_accent colors
               = match sort_reverse scored_lt scored with
                 | first :: _ => Some (snd first)
                 | [] => None
                 end).
  { unfold pick_accent. destruct colors; [congruence|]. rewrite Es. reflexivity. }
  pose proof (sort_reverse_perm scored_lt scored) as Perm.
  pose proof (sort_reverse_sorted scored_lt
                (fun x => PrimFloat.eqb (fst x) (fst x) = true)
                scored_lt_asym scored_le_trans scored
                (Forall_impl _ (fun x H => proj2 H) Ef)) as Sorted.
  rewrite Forall_forall in Ef.
  destruct (sort_reverse scored_lt scored) as [|[s c] rest].
  { apply Permutation_nil in Perm. subst scored. simpl in Em. congruence. }
  assert (Hin : In (s, c) scored).
  { apply (Permutation_in _ Perm). left. reflexivity. }
  destruct (Ef _ Hin) as [Sc Ns]. simpl in Sc, Ns.
  exists c, s. split; [exact Ep|]. split.
  { rewrite <- Em. apply (in_map snd _ _ Hin). } split; [exact Sc|].
  intros c' Hc'. rewrite <- Em in Hc'. apply in_map_iff in Hc'.
  destruct Hc' as ([s' c''] & E & Hx). simpl in E. subst c''.
  destruct (Ef _ Hx) as [Sc' Ns']. simpl in Sc', Ns'.
  exists s'. split; [exact Sc'|].
  apply scored_not_lt; [exact Ns|exact Ns'|].
  apply (Permutation_in _ (Permutation_sym Perm)) in Hx.
  destruct Hx as [Hx|Hx].
  - rewrite <- Hx. apply (scored_lt_irrefl (s, c)). exact Ns.
  - inversion Sorted as [|? ? _ Hall]; subst.
    rewrite Forall_forall in Hall. apply (Hall _ Hx).
Qed.

Lemma pick_accent_takes_greatest_witness :
  exists c s,
    pick_accent ["#000000"; "#ffffff"]%string = Some c
    /\ In c ["#000000"; "#ffffff"]%string /\ score_accent c = Some s
    /\ forall c', In c' ["#000000"; "#ffffff"]%string ->
         exists s', score_accent c' = Some s'
           /\ PrimFloat.leb s' s = true
           /\ (PrimFloat.eqb s' s = true -> PyStr.ltb c c' = false).
Proof.
  apply (pick_accent_takes_greatest ["#000000"; "#ffffff"]%string).
  - discriminate.
  - repeat constructor.
Defined.

(** ** Colour strings *)

Lemma in_lower_hex (a : ascii) :
  is_lower_hex a = true -> In a lower_hex_chars.
Proof.
  unfold is_lower_hex. rewrite existsb_exists. intros (x & Hx & E).
  apply Ascii.eqb_eq in E. subst x. exact Hx.
Qed.

Lemma format_lower_all : forallb format_is_lower (range 256) = true.
Proof. vm_compute. reflexivity. Qed.

Lemma format_02x_lower (n : Z) :
  0 <= n <= 255 ->
  is_lower_hex (PyStr.hex_char (n / 16)) = true
  /\ is_lower_hex (PyStr.hex_char (n mod 16)) = true.
Proof.
  intros Hn. apply andb_true_iff.
  apply (forallb_range _ 256 format_lower_all). simpl. lia.
Qed.

Lemma rgb_to_hex_is_hex6 (r g b : Z) : is_hex6 (rgb_to_hex r g b) = true.
Proof.
  unfold rgb_to_hex, PyStr.format_02x.
  fold (clamp_channel r) (clamp_channel g) (clamp_channel b).
  destruct (format_02x_lower _ (clamp_channel_range r)) as [R1 R2].
  destruct (format_02x_lower _ (clamp_channel_range g)) as [G1 G2].
  destruct (format_02x_lower _ (clamp_channel_range b)) as [B1 B2].
  cbn [String.append is_hex6].
  rewrite R1, R2, G1, G2, B1, B2. reflexivity.
Qed.

Lemma digits_round_trip_all :
  forallb (fun a => forallb (digits_round_trip a) lower_hex_chars)
          lower_hex_chars = true.
Proof. vm_compute. reflexivity. Qed.

Lemma digits_round_trip_lower (a b : ascii) :
  is_lower_hex a = true -> is_lower_hex b = true ->
  Ascii.eqb a "#" = false
  /\ exists v,
       PyStr.int16 (String a (String b EmptyString)) = Some v
       /\ is_channel v = true
       /\ PyStr.format_02x (clamp_channel v) = String a (String b EmptyString).
Proof.
  intros Ha Hb. apply in_lower_hex in Ha, Hb.
  pose proof digits_round_trip_all as H. rewrite forallb_forall in H.
  specialize (H a Ha). rewrite forallb_forall in H. specialize (H b Hb).
  unfold digits_round_trip in H. apply andb_true_iff in H. destruct H as [N H].
  split; [apply negb_true_iff, N|].
  destruct (PyStr.int16 _) as [v|]; [|discriminate H].
  apply andb_true_iff in H. destruct H as [C E].
  exists v. split; [reflexivity|]. split; [exact C|].
  apply String.eqb_eq, E.
Qed.

Lemma hex6_digits (s : string) :
  is_hex6 s = true ->
  exists a1 a2 b1 b2 c1 c2,
    s = String "#" (String a1 (String a2 (String b1 (String b2
          (String c1 (String c2 EmptyString))))))
    /\ is_lower_hex a1 = true /\ is_lower_hex a2 = true
    /\ is_lower_hex b1 = true /\ is_lower_hex b2 = true
    /\ is_lower_hex c1 = true /\ is_lower_hex c2 = true.
Proof.
  destruct s as [|h [|a1 [|a2 [|b1 [|b2 [|c1 [|c2 [|x s]]]]]]]];
    try discriminate.
  unfold is_hex6. rewrite !andb_true_iff.
  intros [[[[[[H A1] A2] B1] B2] C1] C2].
  apply Ascii.eqb_eq in H. subst h.
  exists a1, a2, b1, b2, c1, c2. repeat split; assumption.
Qed.

Lemma hex6_read_back (s : string) :
  is_hex6 s = true ->
  exists r g b,
    hex_to_rgb s = Some (r, g, b)
    /\ is_channel r = true /\ is_channel g = true /\ is_channel b = true
    /\ rgb_to_hex r g b = s.
Proof.
  intros H.
  destruct (hex6_digits s H)
    as (a1 & a2 & b1 & b2 & c1 & c2 & -> & A1 & A2 & B1 & B2 & C1 & C2).
  destruct (digits_round_trip_lower a1 a2 A1 A2) as (N & r & Er & Cr & Fr).
  destruct (digits_round_trip_lower b1 b2 B1 B2) as (_ & g & Eg & Cg & Fg).
  destruct (digits_round_trip_lower c1 c2 C1 C2) as (_ & b & Eb & Cb & Fb).
  exists r, g, b. rewrite (hex_to_rgb_of_digits _ _ _ _ _ _ N), Er, Eg, Eb.
  split; [reflexivity|]. repeat (split; [assumption|]).
  unfold rgb_to_hex. fold (clamp_channel r) (clamp_channel g) (clamp_channel b).
  rewrite Fr, Fg, Fb. reflexivity.
Qed.

Lemma hex6_is_color (s : string) : is_hex6 s = true -> is_color s = true.
Proof.
  intros H. destruct (hex6_read_back s H) as (r & g & b & E & Cr & Cg & Cb & _).
  unfold is_color. rewrite E, Cr, Cg, Cb. reflexivity.
Qed.

Lemma clamp_channel_id (z : Z) : is_channel z = true -> clamp_channel z = z.
Proof.
  unfold is_channel. rewrite andb_true_iff, !Z.leb_le. intros Hz.
  unfold clamp_channel, int_max, int_min.
  destruct (Z.ltb_spec z 255); destruct (Z.ltb_spec 0 z);
    destruct (Z.ltb_spec 0 255); lia.
Qed.

(** [rgb_to_hex] always writes [#] and six lower-case hexadecimal digits,
    whatever integers it is given; on channels in [0, 255] [hex_to_rgb]
    reads them back unchanged, and every string of that form is what
    [rgb_to_hex] writes for the channels that [hex_to_rgb] reads from it. *)
Theorem hex_notation_round_trips :
  (forall r g b, is_hex6 (rgb_to_hex r g b) = true)
  /\ (forall r g b,
        is_channel r = true -> is_channel g = true -> is_channel b = true ->
        hex_to_rgb (rgb_to_hex r g b) = Some (r, g, b))
  /\ (forall s, is_hex6 s = true ->
        exists r g b,
          hex_to_rgb s = Some (r, g, b)
          /\ is_channel r = true /\ is_channel g = true /\ is_channel b = true
          /\ rgb_to_hex r g b = s).
Proof.
  split; [exact rgb_to_hex_is_hex6|]. split; [|exact hex6_read_back].
  intros r g b Hr Hg Hb. rewrite hex_to_rgb_rgb_to_hex.
  rewrite !clamp_channel_id by assumption. reflexivity.
Qed.

Lemma hex_to_rgb_of_digits_tail (a1 a2 b1 b2 c1 c2 : ascii) (t : string) :
  Ascii.eqb a1 "#" = false ->
  hex_to_rgb (String "#" (String a1 (String a2 (String b1 (String b2
               (String c1 (String c2 t)))))))
  = hex_to_rgb (String "#" (String a1 (String a2 (String b1 (String b2
                  (String c1 (String c2 EmptyString))))))).
Proof.
  intros Ha. unfold hex_to_rgb.
  cbn [PyStr.lstrip_hash]. rewrite Ha.
  replace (Ascii.eqb "#" "#") with true by reflexivity.
  destruct t; reflexivity.
Qed.

Lemma substring_past_end (s : string) (n m : nat) :
  (String.length s <= n)%nat -> substring n m s = EmptyString.
Proof.
  revert n. induction s as [|c s IH]; intros n H.
  - destruct n, m; reflexivity.
  - destruct n as [|n]; [simpl in H; lia|].
    simpl. apply IH. simpl in H. lia.
Qed.

(** [hex_to_rgb] skips every leading [#]; it raises on a string that has
    fewer than five characters after them (so on the short form [#fff]);
    and it reads the first six characters only, so what follows a
    [#rrggbb] colour is ignored. *)
Theorem hex_to_rgb_reads_six_characters :
  (forall s, hex_to_rgb (String "#" s) = hex_to_rgb s)
  /\ (forall s, (String.length (PyStr.lstrip_hash s) <= 4)%nat ->
                hex_to_rgb s = None)
  /\ (forall s t, is_hex6 s = true ->
                  hex_to_rgb (s ++ t) = hex_to_rgb s).
Proof.
  split; [|split].
  - intros s. reflexivity.
  - intros s H. unfold hex_to_rgb.
    replace (PyStr.slice 4 6 (PyStr.lstrip_hash s)) with EmptyString
      by (symmetry; apply substring_past_end, H).
    destruct (PyStr.int16 (PyStr.slice 0 2 _)); [|reflexivity].
    destruct (PyStr.int16 (PyStr.slice 2 4 _)); reflexivity.
  - intros s t H.
    destruct (hex6_digits s H)
      as (a1 & a2 & b1 & b2 & c1 & c2 & -> & A1 & A2 & _).
    destruct (digits_round_trip_lower a1 a2 A1 A2) as (N & _).
    cbn [String.append]. apply hex_to_rgb_of_digits_tail, N.
Qed.

(** ** Pixel selection never loses the sample *)

(** What [extract_colors] clusters is never empty unless the image is:
    the selected pixels are pixels of the sample, kept in order, and when
    any pixel is dropped more than 1000 are left, each with a channel sum
    strictly between 60 and 700. *)
Theorem select_pixels_keeps_a_sample (pixels : list pixel) :
  (pixels <> [] -> select_pixels pixels <> [])
  /\ (forall p, In p (select_pixels pixels) -> In p pixels)
  /\ (select_pixels pixels = pixels
      \/ (1000 < Z.of_nat (List.length (select_pixels pixels))
          /\ forall p, In p (select_pixels pixels) ->
                       60 < brightness p < 700)).
Proof.
  unfold select_pixels.
  destruct (Z.ltb_spec 1000 (Z.of_nat (List.length (filter keep pixels))))
    as [H|H].
  - split; [|split].
    + intros _ E. rewrite E in H. simpl in H. lia.
    + intros p Hp. apply filter_In in Hp. apply Hp.
    + right. split; [exact H|]. intros p Hp. apply filter_In in Hp.
      destruct Hp as [_ Hp]. unfold keep in Hp.
      apply andb_true_iff in Hp. rewrite !Z.ltb_lt in Hp. exact Hp.
  - split; [|split].
    + intros Hne. exact Hne.
    + intros p Hp. exact Hp.
    + left. reflexivity.
Qed.

(** ** GNOME accent names as thresholds *)

Lemma float_leb_negb (x y : float) :
  PrimFloat.eqb x x = true -> PrimFloat.eqb y y = true ->
  PrimFloat.leb x y = negb (PrimFloat.ltb y x).
Proof.
  intros Hx Hy.
  pose proof (float_leb_key x y Hx Hy) as L.
  pose proof (float_ltb_key y x Hy Hx) as G.
  destruct (float_key x) as [[a1 a2] a3], (float_key y) as [[b1 b2] b3].
  assert (E : lex3 (a1, a2, a3) (b1, b2, b3) = Gt
              <-> lex3 (b1, b2, b3) (a1, a2, a3) = Lt).
  { rewrite lex3_Gt, lex3_Lt. tauto. }
  destruct (PrimFloat.leb x y), (PrimFloat.ltb y x); try reflexivity;
    exfalso.
  - apply (proj1 L eq_refl), E, G. reflexivity.
  - destruct (lex3 (a1, a2, a3) (b1, b2, b3)) eqn:C;
      try (assert (false = true) as X by (apply L; congruence);
           discriminate X).
    assert (false = true) as X by (apply G, E; reflexivity). discriminate X.
Qed.

Lemma float_ltb_trans (x y z : float) :
  PrimFloat.eqb x x = true -> PrimFloat.eqb y y = true ->
  PrimFloat.eqb z z = true ->
  PrimFloat.ltb x y = true -> PrimFloat.ltb y z = true ->
  PrimFloat.ltb x z = true.
Proof.
  intros Hx Hy Hz.
  rewrite (float_ltb_key x y Hx Hy), (float_ltb_key y z Hy Hz),
    (float_ltb_key x z Hx Hz).
  destruct (float_key x) as [[a1 a2] a3], (float_key y) as [[b1 b2] b3],
    (float_key z) as [[c1 c2] c3].
  rewrite !lex3_Lt. lia.
Qed.

(** A hue below a threshold under 345 is below 345. *)
Lemma below_345 (h c : float) :
  PrimFloat.eqb h h = true -> PrimFloat.eqb c c = true ->
  PrimFloat.ltb c 345 = true ->
  PrimFloat.ltb h c = true -> PrimFloat.ltb h 345 = true.
Proof.
  intros Hh Hc Hc345 H.
  apply (float_ltb_trans h c 345 Hh Hc eq_refl H Hc345).
Qed.

(** ** The table of accent names, row by row *)

Lemma at_least (h lo : float) :
  PrimFloat.eqb h h = true -> PrimFloat.eqb lo lo = true ->
  PrimFloat.leb lo h = true -> PrimFloat.ltb h lo = false.
Proof.
  intros Hh Hl H. rewrite (float_leb_negb lo h Hl Hh) in H.
  apply negb_true_iff in H. exact H.
Qed.

Lemma not_below (h c lo : float) :
  PrimFloat.eqb h h = true -> PrimFloat.eqb c c = true ->
  PrimFloat.eqb lo lo = true ->
  PrimFloat.leb lo h = true -> PrimFloat.ltb c lo = true ->
  PrimFloat.ltb h c = false.
Proof.
  intros Hh Hc Hl H Hcl. destruct (PrimFloat.ltb h c) eqn:E; [|reflexivity].
  pose proof (float_ltb_trans h c lo Hh Hc Hl E Hcl) as T.
  rewrite (at_least h lo Hh Hl H) in T. discriminate T.
Qed.

Lemma not_at_least_345 (h : float) :
  PrimFloat.eqb h h = true -> PrimFloat.ltb h 345 = true ->
  PrimFloat.leb 345 h = false.
Proof.
  intros Hh H. rewrite (float_leb_negb 345 h eq_refl Hh), H. reflexivity.
Qed.

Lemma row_slate (h s : float) :
  PrimFloat.ltb s 15 = true -> gnome_name_of_hsl h s = "slate"%string.
Proof. intros Hs. unfold gnome_name_of_hsl. rewrite Hs. reflexivity. Qed.

Lemma row_red_low (h s : float) :
  PrimFloat.ltb s 15 = false -> PrimFloat.ltb h 15 = true ->
  gnome_name_of_hsl h s = "red"%string.
Proof.
  intros Hs Hhi. unfold gnome_name_of_hsl. rewrite Hs, Hhi. reflexivity.
Qed.

Lemma row_red_high (h s : float) :
  PrimFloat.ltb s 15 = false -> PrimFloat.leb 345 h = true ->
  gnome_name_of_hsl h s = "red"%string.
Proof.
  intros Hs Hlo. unfold gnome_name_of_hsl. rewrite Hs, Hlo.
  rewrite orb_true_r. reflexivity.
Qed.

Lemma row_orange (h s : float) :
  PrimFloat.ltb s 15 = false -> PrimFloat.eqb h h = true ->
  PrimFloat.leb 15 h = true -> PrimFloat.ltb h 40 = true ->
  gnome_name_of_hsl h s = "orange"%string.
Proof.
  intros Hs Hh Hlo Hhi. unfold gnome_name_of_hsl. rewrite Hs.
  rewrite (at_least h 15 Hh eq_refl Hlo).
  rewrite (not_at_least_345 h Hh (below_345 h 40 Hh eq_refl eq_refl Hhi)).
  rewrite Hlo, Hhi. reflexivity.
Qed.

Lemma row_yellow (h s : float) :
  PrimFloat.ltb s 15 = false -> PrimFloat.eqb h h = true ->
  PrimFloat.leb 40 h = true -> PrimFloat.ltb h 70 = true ->
  gnome_name_of_hsl h s = "yellow"%string.
Proof.
  intros Hs Hh Hlo Hhi. unfold gnome_name_of_hsl. rewrite Hs.
  rewrite (not_below h 15 40 Hh eq_refl eq_refl Hlo eq_refl).
  rewrite (at_least h 40 Hh eq_refl Hlo).
  rewrite (not_at_least_345 h Hh (below_345 h 70 Hh eq_refl eq_refl Hhi)).
  rewrite !andb_false_r.
  rewrite Hlo, Hhi. reflexivity.
Qed.

Lemma row_green (h s : float) :
  PrimFloat.ltb s 15 = false -> PrimFloat.eqb h h = true ->
  PrimFloat.leb 70 h = true -> PrimFloat.ltb h 160 = true ->
  gnome_name_of_hsl h s = "green"%string.
Proof.
  intros Hs Hh Hlo Hhi. unfold gnome_name_of_hsl. rewrite Hs.
  rewrite (not_below h 15 70 Hh eq_refl eq_refl Hlo eq_refl).
  rewrite (not_below h 40 70 Hh eq_refl eq_refl Hlo eq_refl).
  rewrite (at_least h 70 Hh eq_refl Hlo).
  rewrite (not_at_least_345 h Hh (below_345 h 160 Hh eq_refl eq_refl Hhi)).
  rewrite !andb_false_r.
  rewrite Hlo, Hhi. reflexivity.
Qed.

Lemma row_teal (h s : float) :
  PrimFloat.ltb s 15 = false -> PrimFloat.eqb h h = true ->
  PrimFloat.leb 160 h = true -> PrimFloat.ltb h 195 = true ->
  gnome_name_of_hsl h s = "teal"%string.
Proof.
  intros Hs Hh Hlo Hhi. unfold gnome_name_of_hsl. rewrite Hs.
  rewrite (not_below h 15 160 Hh eq_refl eq_refl Hlo eq_refl).
  rewrite (not_below h 40 160 Hh eq_refl eq_refl Hlo eq_refl).
  rewrite (not_below h 70 160 Hh eq_refl eq_refl Hlo eq_refl).
  rewrite (at_least h 160 Hh eq_refl Hlo).
  rewrite (not_at_least_345 h Hh (below_345 h 195 Hh eq_refl eq_refl Hhi)).
  rewrite !andb_false_r.
  rewrite Hlo, Hhi. reflexivity.
Qed.

Lemma row_blue (h s : float) :
  PrimFloat.ltb s 15 = false -> PrimFloat.eqb h h = true ->
  PrimFloat.leb 195 h = true -> PrimFloat.ltb h 260 = true ->
  gnome_name_of_hsl h s = "blue"%string.
Proof.
  intros Hs Hh Hlo Hhi. unfold gnome_name_of_hsl. rewrite Hs.
  rewrite (not_below h 15 195 Hh eq_refl eq_refl Hlo eq_refl).
  rewrite (not_below h 40 195 Hh eq_refl eq_refl Hlo eq_refl).
  rewrite (not_below h 70 195 Hh eq_refl eq_refl Hlo eq_refl).
  rewrite (not_below h 160 195 Hh eq_refl eq_refl Hlo eq_refl).
  rewrite (at_least h 195 Hh eq_refl Hlo).
  rewrite (not_at_least_345 h Hh (below_345 h 260 Hh eq_refl eq_refl Hhi)).
  rewrite !andb_false_r.
  rewrite Hlo, Hhi. reflexivity.
Qed.

Lemma row_purple (h s : float) :
  PrimFloat.ltb s 15 = false -> PrimFloat.eqb h h = true ->
  PrimFloat.leb 260 h = true -> PrimFloat.ltb h 300 = true ->
  gnome_name_of_hsl h s = "purple"%string.
Proof.
  intros Hs Hh Hlo Hhi. unfold gnome_name_of_hsl. rewrite Hs.
  rewrite (not_below h 15 260 Hh eq_refl eq_refl Hlo eq_refl).
  rewrite (not_below h 40 260 Hh eq_refl eq_refl Hlo eq_refl).
  rewrite (not_below h 70 260 Hh eq_refl eq_refl Hlo eq_refl).
  rewrite (not_below h 160 260 Hh eq_refl eq_refl Hlo eq_refl).
  rewrite (not_below h 195 260 Hh eq_refl eq_refl Hlo eq_refl).
  rewrite (at_least h 260 Hh eq_refl Hlo).
  rewrite (not_at_least_345 h Hh (below_345 h 300 Hh eq_refl eq_refl Hhi)).
  rewrite !andb_false_r.
  rewrite Hlo, Hhi. reflexivity.
Qed.

Lemma row_pink (h s : float) :
  PrimFloat.ltb s 15 = false -> PrimFloat.eqb h h = true ->
  PrimFloat.leb 300 h = true -> PrimFloat.ltb h 345 = true ->
  gnome_name_of_hsl h s = "pink"%string.
Proof.
  intros Hs Hh Hlo Hhi. unfold gnome_name_of_hsl. rewrite Hs.
  rewrite (not_below h 15 300 Hh eq_refl eq_refl Hlo eq_refl).
  rewrite (not_below h 40 300 Hh eq_refl eq_refl Hlo eq_refl).
  rewrite (not_below h 70 300 Hh eq_refl eq_refl Hlo eq_refl).
  rewrite (not_below h 160 300 Hh eq_refl eq_refl Hlo eq_refl).
  rewrite (not_below h 195 300 Hh eq_refl eq_refl Hlo eq_refl).
  rewrite (not_below h 260 300 Hh eq_refl eq_refl Hlo eq_refl).
  rewrite (at_least h 300 Hh eq_refl Hlo).
  rewrite (not_at_least_345 h Hh Hhi).
  rewrite !andb_false_r.
  reflexivity.
Qed.

(** C4, amended: [get_gnome_accent_name] is the table applied to the hue and
    saturation of the colour.  A saturation below 15 gives [slate] for any hue.
    A saturation that is not below 15 (15.0 as well as 15.1) goes to the hue
    table, whose rows are half-open on the low side: below 15 red, from 15
    orange, from 40 yellow, from 70 green, from 160 teal, from 195 blue, from
    260 purple, from 300 pink, from 345 red.  So hue 14.9 is red, 15.0 orange,
    344.9 pink and 345.0 red. *)
Theorem gnome_name_boundaries :
  (forall c, get_gnome_accent_name c
             = ('(h, s, l) <- hex_to_hsl c ;; Some (gnome_name_of_hsl h s)))
  /\ (forall h s, PrimFloat.ltb s 15 = true ->
                  gnome_name_of_hsl h s = "slate"%string)
  /\ (forall h s,
        PrimFloat.ltb s 15 = false -> PrimFloat.eqb h h = true ->
        (PrimFloat.ltb h 15 = true -> gnome_name_of_hsl h s = "red"%string)
        /\ (PrimFloat.leb 15 h = true -> PrimFloat.ltb h 40 = true ->
            gnome_name_of_hsl h s = "orange"%string)
        /\ (PrimFloat.leb 40 h = true -> PrimFloat.ltb h 70 = true ->
            gnome_name_of_hsl h s = "yellow"%string)
        /\ (PrimFloat.leb 70 h = true -> PrimFloat.ltb h 160 = true ->
            gnome_name_of_hsl h s = "green"%string)
        /\ (PrimFloat.leb 160 h = true -> PrimFloat.ltb h 195 = true ->
            gnome_name_of_hsl h s = "teal"%string)
        /\ (PrimFloat.leb 195 h = true -> PrimFloat.ltb h 260 = true ->
            gnome_name_of_hsl h s = "blue"%string)
        /\ (PrimFloat.leb 260 h = true -> PrimFloat.ltb h 300 = true ->
            gnome_name_of_hsl h s = "purple"%string)
        /\ (PrimFloat.leb 300 h = true -> PrimFloat.ltb h 345 = true ->
            gnome_name_of_hsl h s = "pink"%string)
        /\ (PrimFloat.leb 345 h = true ->
            gnome_name_of_hsl h s = "red"%string))
  /\ (forall s, gnome_name_of_hsl 14.9 s
                = if PrimFloat.ltb s 15 then "slate" else "red")%string
  /\ (forall s, gnome_name_of_hsl 15 s
                = if PrimFloat.ltb s 15 then "slate" else "orange")%string
  /\ (forall s, gnome_name_of_hsl 344.9 s
                = if PrimFloat.ltb s 15 then "slate" else "pink")%string
  /\ (forall s, gnome_name_of_hsl 345 s
                = if PrimFloat.ltb s 15 then "slate" else "red")%string
  /\ (forall h, gnome_name_of_hsl h 14.9 = "slate"%string)
  /\ (forall h, gnome_name_of_hsl h 15 = gnome_name_of_hsl h 15.1)
  /\ (forall h, gnome_name_of_hsl h 15 <> "slate"%string).
Proof.
  assert (E15 : PrimFloat.ltb 15 15 = false) by reflexivity.
  assert (E151 : PrimFloat.ltb 15.1 15 = false) by reflexivity.
  assert (E149 : PrimFloat.ltb 14.9 15 = true) by reflexivity.
  split; [|split; [|split; [|split; [|split; [|split; [|split; [|split;
    [|split]]]]]]]].
  - intros c. reflexivity.
  - intros h s. apply row_slate.
  - intros h s Hs Hh.
    split; [|split; [|split; [|split; [|split; [|split; [|split; [|split]]]]]]].
    + apply (row_red_low h s Hs).
    + apply (row_orange h s Hs Hh).
    + apply (row_yellow h s Hs Hh).
    + apply (row_green h s Hs Hh).
    + apply (row_teal h s Hs Hh).
    + apply (row_blue h s Hs Hh).
    + apply (row_purple h s Hs Hh).
    + apply (row_pink h s Hs Hh).
    + apply (row_red_high h s Hs).
  - intros s. unfold gnome_name_of_hsl.
    destruct (PrimFloat.ltb s 15); reflexivity.
  - intros s. unfold gnome_name_of_hsl.
    destruct (PrimFloat.ltb s 15); reflexivity.
  - intros s. unfold gnome_name_of_hsl.
    destruct (PrimFloat.ltb s 15); reflexivity.
  - intros s. unfold gnome_name_of_hsl.
    destruct (PrimFloat.ltb s 15); reflexivity.
  - intros h. apply row_slate. exact E149.
  - intros h. unfold gnome_name_of_hsl. rewrite E15, E151. reflexivity.
  - intros h. unfold gnome_name_of_hsl. rewrite E15.
    repeat match goal with
           | |- context [if ?c then _ else _] => destruct c
           end; discriminate.
Qed.

(** For a hue that is a number, the table of [get_gnome_accent_name] is a
    chain of thresholds: below 15 red, below 40 orange, below 70 yellow,
    below 160 green, below 195 teal, below 260 blue, below 300 purple,
    below 345 pink, and red from 345 on; the lower bounds that the code
    tests never decide, and [pink] is returned for hues in [300, 345)
    only. *)
Theorem gnome_name_is_a_threshold_chain (h s : float) :
  PrimFloat.eqb h h = true ->
  gnome_name_of_hsl h s = gnome_name_by_thresholds h s.
Proof.
  intros Hh. unfold gnome_name_of_hsl, gnome_name_by_thresholds.
  destruct (PrimFloat.ltb s 15); [reflexivity|].
  rewrite !(fun c Hc => float_leb_negb c h Hc Hh) by reflexivity.
  destruct (PrimFloat.ltb h 15) eqn:E15; [reflexivity|].
  destruct (PrimFloat.ltb h 40) eqn:E40.
  { rewrite (below_345 h 40 Hh eq_refl eq_refl E40). reflexivity. }
  destruct (PrimFloat.ltb h 70) eqn:E70.
  { rewrite (below_345 h 70 Hh eq_refl eq_refl E70). reflexivity. }
  destruct (PrimFloat.ltb h 160) eqn:E160.
  { rewrite (below_345 h 160 Hh eq_refl eq_refl E160). reflexivity. }
  destruct (PrimFloat.ltb h 195) eqn:E195.
  { rewrite (below_345 h 195 Hh eq_refl eq_refl E195). reflexivity. }
  destruct (PrimFloat.ltb h 260) eqn:E260.
  { rewrite (below_345 h 260 Hh eq_refl eq_refl E260). reflexivity. }
  destruct (PrimFloat.ltb h 300) eqn:E300.
  { rewrite (below_345 h 300 Hh eq_refl eq_refl E300). reflexivity. }
  destruct (PrimFloat.ltb h 345); reflexivity.
Qed.

Lemma gnome_name_is_a_threshold_chain_witness :
  gnome_name_of_hsl 320 50 = gnome_name_by_thresholds 320 50.
Proof. apply gnome_name_is_a_threshold_chain. reflexivity. Defined.

(** ** Scores and names of colours *)

Lemma channel_pairs (Q : Z -> Z -> bool) :
  forallb (fun i => forallb (Q i) (range 256)) (range 256) = true ->
  forall i j, is_channel i = true -> is_channel j = true -> Q i j = true.
Proof.
  intros H i j. unfold is_channel. rewrite !andb_true_iff, !Z.leb_le.
  intros Hi Hj.
  assert (Hi' : 0 <= i < Z.of_nat 256) by (change (Z.of_nat 256) with 256; lia).
  assert (Hj' : 0 <= j < Z.of_nat 256) by (change (Z.of_nat 256) with 256; lia).
  exact (forallb_range _ 256 (forallb_range _ 256 H i Hi') j Hj').
Qed.

Lemma channel_floats_ordered :
  forallb (fun a => forallb (channel_float_order a) (range 256)) (range 256)
  = true.
Proof. vm_compute. reflexivity. Qed.

Lemma channel_float_ltb (a b : Z) :
  is_channel a = true -> is_channel b = true ->
  PrimFloat.ltb (channel_float a) (channel_float b) = (a <? b).
Proof.
  intros Ha Hb. apply eqb_prop.
  exact (channel_pairs _ channel_floats_ordered a b Ha Hb).
Qed.

Lemma is_channel_int_max (a b : Z) :
  is_channel a = true -> is_channel b = true -> is_channel (int_max a b) = true.
Proof. intros Ha Hb. unfold int_max. destruct (a <? b); assumption. Qed.

Lemma is_channel_int_min (a b : Z) :
  is_channel a = true -> is_channel b = true -> is_channel (int_min a b) = true.
Proof. intros Ha Hb. unfold int_min. destruct (b <? a); assumption. Qed.

Lemma max_channel_float (a b : Z) :
  is_channel a = true -> is_channel b = true ->
  Py.max (channel_float a) (channel_float b) = channel_float (int_max a b).
Proof.
  intros Ha Hb. unfold Py.max, int_max.
  rewrite (channel_float_ltb a b Ha Hb). destruct (a <? b); reflexivity.
Qed.

Lemma min_channel_float (a b : Z) :
  is_channel a = true -> is_channel b = true ->
  Py.min (channel_float a) (channel_float b) = channel_float (int_min a b).
Proof.
  intros Ha Hb. unfold Py.min, int_min.
  rewrite (channel_float_ltb b a Hb Ha). destruct (b <? a); reflexivity.
Qed.

(** The greatest and the least of three channels are channels, in order. *)
Lemma extreme_channels (r g b : Z) :
  is_channel r = true -> is_channel g = true -> is_channel b = true ->
  exists i j,
    Py.max3 (channel_float r) (channel_float g) (channel_float b)
    = channel_float i
    /\ Py.min3 (channel_float r) (channel_float g) (channel_float b)
       = channel_float j
    /\ is_channel i = true /\ is_channel j = true /\ j <= i
    /\ (r = g -> g = b -> i = r /\ j = r).
Proof.
  intros Hr Hg Hb.
  exists (int_max (int_max r g) b), (int_min (int_min r g) b).
  unfold Py.max3, Py.min3.
  rewrite (max_channel_float r g Hr Hg), (min_channel_float r g Hr Hg).
  rewrite (max_channel_float _ b (is_channel_int_max r g Hr Hg) Hb).
  rewrite (min_channel_float _ b (is_channel_int_min r g Hr Hg) Hb).
  split; [reflexivity|]. split; [reflexivity|].
  split; [auto using is_channel_int_max|].
  split; [auto using is_channel_int_min|].
  unfold int_max, int_min.
  destruct (Z.ltb_spec r g), (Z.ltb_spec g r); try lia;
    repeat match goal with
           | |- context [?x <? ?y] => destruct (Z.ltb_spec x y)
           end; lia.
Qed.

Lemma rgb_to_hsl_by_extremes (r g b : Z) :
  is_channel r = true -> is_channel g = true -> is_channel b = true ->
  exists i j,
    is_channel i = true /\ is_channel j = true /\ j <= i
    /\ (r = g -> g = b -> i = r /\ j = r)
    /\ rgb_to_hsl r g b
       = ('(l, s) <- lightness_saturation (channel_float i) (channel_float j) ;;
          Some ((hue_of (channel_float r) (channel_float g) (channel_float b)
                 * 360)%float, (s * 100)%float, (l * 100)%float)).
Proof.
  intros Hr Hg Hb.
  destruct (extreme_channels r g b Hr Hg Hb)
    as (i & j & Ei & Ej & Hi & Hj & Hij & Heq).
  exists i, j. repeat (split; [assumption|]).
  unfold rgb_to_hsl.
  fold (channel_float r) (channel_float g) (channel_float b).
  rewrite rgb_to_hls_split, Ei, Ej.
  destruct (lightness_saturation _ _) as [[l s]|]; reflexivity.
Qed.

Lemma scores_in_range :
  forallb (fun i => forallb (score_in_range i) (range 256)) (range 256) = true.
Proof. vm_compute. reflexivity. Qed.

Lemma greys_are_slate : forallb grey_is_slate (range 256) = true.
Proof. vm_compute. reflexivity. Qed.

Lemma score_of_extremes (i j : Z) :
  is_channel i = true -> is_channel j = true -> j <= i ->
  exists l s,
    lightness_saturation (channel_float i) (channel_float j) = Some (l, s)
    /\ PrimFloat.leb 0 (score_of_hsl (s * 100) (l * 100)) = true
    /\ PrimFloat.leb (score_of_hsl (s * 100) (l * 100)) 1.0000000000000002
       = true
    /\ (i = j -> PrimFloat.eqb (score_of_hsl (s * 100) (l * 100)) 0 = true).
Proof.
  intros Hi Hj Hij.
  pose proof (channel_pairs _ scores_in_range i j Hi Hj) as S.
  unfold score_in_range in S.
  destruct (Z.ltb_spec i j); [lia|]. simpl in S.
  destruct (lightness_saturation _ _) as [[l s]|]; [|discriminate S].
  cbv zeta in S. rewrite !andb_true_iff in S. destruct S as [[S0 S1] S2].
  exists l, s. repeat split; try assumption.
  intros ->. rewrite Z.eqb_refl in S2. exact S2.
Qed.

(** Every colour with channels in [0, 255] has a score, and the score is at
    least 0 and at most 1 up to one rounding of the floating-point
    saturation: it is not above [1.0000000000000002], the float next to 1. *)
Theorem score_accent_bounds (c : string) :
  is_color c = true ->
  exists s,
    score_accent c = Some s
    /\ PrimFloat.leb 0 s = true
    /\ PrimFloat.leb s 1.0000000000000002 = true.
Proof.
  unfold is_color, score_accent, hex_to_hsl.
  destruct (hex_to_rgb c) as [[[r g] b]|]; [|discriminate].
  rewrite !andb_true_iff. intros [[Hr Hg] Hb].
  destruct (rgb_to_hsl_by_extremes r g b Hr Hg Hb)
    as (i & j & Hi & Hj & Hij & _ & ->).
  destruct (score_of_extremes i j Hi Hj Hij) as (l & s & -> & S0 & S1 & _).
  eexists. split; [reflexivity|]. split; assumption.
Qed.

Lemma score_accent_bounds_witness :
  exists s,
    score_accent "#3584e4" = Some s
    /\ PrimFloat.leb 0 s = true
    /\ PrimFloat.leb s 1.0000000000000002 = true.
Proof. apply score_accent_bounds. reflexivity. Defined.

(** A grey (three equal channels) scores 0 and is named [slate]. *)
Theorem greys_score_0_and_are_slate (v : Z) :
  is_channel v = true ->
  (exists s, score_accent (rgb_to_hex v v v) = Some s
             /\ PrimFloat.eqb s 0 = true)
  /\ get_gnome_accent_name (rgb_to_hex v v v) = Some "slate"%string.
Proof.
  intros Hv.
  assert (E : hex_to_rgb (rgb_to_hex v v v) = Some (v, v, v)).
  { rewrite hex_to_rgb_rgb_to_hex, !clamp_channel_id by exact Hv.
    reflexivity. }
  split.
  - unfold score_accent, hex_to_hsl. rewrite E.
    destruct (rgb_to_hsl_by_extremes v v v Hv Hv Hv)
      as (i & j & Hi & Hj & Hij & Heq & ->).
    destruct (Heq eq_refl eq_refl) as [-> ->].
    destruct (score_of_extremes v v Hv Hv Hij) as (l & s & -> & _ & _ & S).
    eexists. split; [reflexivity|exact (S eq_refl)].
  - unfold get_gnome_accent_name, hex_to_hsl. rewrite E.
    unfold is_channel in Hv. rewrite andb_true_iff, !Z.leb_le in Hv.
    assert (Hv' : 0 <= v < Z.of_nat 256)
      by (change (Z.of_nat 256) with 256; lia).
    pose proof (forallb_range _ 256 greys_are_slate v Hv') as G.
    unfold grey_is_slate in G.
    destruct (rgb_to_hsl v v v) as [[[h s] l]|]; [|discriminate G].
    apply String.eqb_eq in G. rewrite G. reflexivity.
Qed.

Lemma greys_score_0_and_are_slate_witness :
  (exists s, score_accent (rgb_to_hex 128 128 128) = Some s
             /\ PrimFloat.eqb s 0 = true)
  /\ get_gnome_accent_name (rgb_to_hex 128 128 128) = Some "slate"%string.
Proof. apply greys_score_0_and_are_slate. reflexivity. Defined.

(** ** The shape of the palette *)

Lemma bind_some {A B : Type} (e : option A) (k : A -> option B) (p : B) :
  match e with Some x => k x | None => None end = Some p ->
  exists x, e = Some x /\ k x = Some p.
Proof. destruct e as [x|]; [eauto|discriminate]. Qed.

(** The steps of a computation that returned, one by one. *)
Ltac binds H :=
  repeat (cbv beta zeta in H;
          let x := fresh "v" in
          let E := fresh "E" in
          apply bind_some in H; destruct H as (x & E & H)).

Lemma hsl_to_hex_is_hex6 (h s l : float) (x : string) :
  hsl_to_hex h s l = Some x -> is_hex6 x = true.
Proof.
  unfold hsl_to_hex. destruct (hsl_to_rgb h s l) as [[[r g] b]|];
    [|discriminate].
  intros H. injection H as <-. apply rgb_to_hex_is_hex6.
Qed.

Lemma lighten_is_hex6 (c : string) (amount : float) (x : string) :
  lighten c amount = Some x -> is_hex6 x = true.
Proof.
  unfold lighten. destruct (hex_to_hsl c) as [[[h s] l]|]; [|discriminate].
  apply hsl_to_hex_is_hex6.
Qed.

(** Whenever [generate_palette] returns, the palette has the 39 role keys,
    in the order of the source; [wallpaper] holds the path it was given and
    every other value is a colour [#rrggbb] in lower-case digits; and the
    ANSI slots that the code takes from a role hold that role's colour. *)
Theorem generate_palette_shape (accent_hex wallpaper_path : string)
  (p : list (string * string)) :
  generate_palette accent_hex wallpaper_path = Some p ->
  map fst p = role_keys
  /\ lookup "wallpaper" p = Some wallpaper_path
  /\ (forall k v, In (k, v) p -> k <> "wallpaper"%string -> is_hex6 v = true)
  /\ lookup "ansi_red" p = lookup "accent" p
  /\ lookup "ansi_green" p = lookup "green" p
  /\ lookup "ansi_blue" p = lookup "blue" p
  /\ lookup "ansi_magenta" p = lookup "magenta" p
  /\ lookup "ansi_cyan" p = lookup "cyan" p
  /\ lookup "ansi_white" p = lookup "text_muted" p
  /\ lookup "ansi_bright_black" p = lookup "border" p
  /\ lookup "ansi_bright_red" p = lookup "accent_light" p
  /\ lookup "ansi_bright_yellow" p = lookup "accent_rose" p
  /\ lookup "insensitive_fg" p = lookup "text_dim" p.
Proof.
  intros H. unfold generate_palette in H.
  destruct (hex_to_hsl accent_hex) as [[[ah a_s] al]|]; [|discriminate H].
  destruct (normalize_accent a_s al) as [a_s' al'].
  unfold derive_palette in H. binds H. injection H as <-.
  split; [reflexivity|]. split; [reflexivity|].
  split; [|repeat split].
  intros key val Hin Hk. simpl in Hin.
  repeat (destruct Hin as [Hin|Hin];
          [injection Hin as <- <-;
           first [congruence
                 |eapply hsl_to_hex_is_hex6; eassumption
                 |eapply lighten_is_hex6; eassumption]|]).
  destruct Hin.
Qed.

Lemma generate_palette_shape_witness :
  exists p,
    generate_palette "#c41e3a" "w.png" = Some p
    /\ map fst p = role_keys
    /\ lookup "wallpaper" p = Some "w.png"%string
    /\ (forall k v, In (k, v) p -> k <> "wallpaper"%string -> is_hex6 v = true)
    /\ lookup "ansi_red" p = lookup "accent" p
    /\ lookup "ansi_green" p = lookup "green" p
    /\ lookup "ansi_blue" p = lookup "blue" p
    /\ lookup "ansi_magenta" p = lookup "magenta" p
    /\ lookup "ansi_cyan" p = lookup "cyan" p
    /\ lookup "ansi_white" p = lookup "text_muted" p
    /\ lookup "ansi_bright_black" p = lookup "border" p
    /\ lookup "ansi_bright_red" p = lookup "accent_light" p
    /\ lookup "ansi_bright_yellow" p = lookup "accent_rose" p
    /\ lookup "insensitive_fg" p = lookup "text_dim" p.
Proof.
  eexists. split; [vm_compute; reflexivity|].
  apply (generate_palette_shape "#c41e3a" "w.png"). vm_compute. reflexivity.
Defined.

(** ** From the extracted colours to the accent *)

Lemma pick_accent_of_colors (colors : list string) :
  Forall (fun c => is_color c = true) colors ->
  exists c,
    pick_accent colors = Some c
    /\ ((colors = [] /\ c = "#c41e3a"%string) \/ In c colors).
Proof.
  intros Hcol. destruct colors as [|c0 cs].
  { exists "#c41e3a"%string. split; [reflexivity|left; split; reflexivity]. }
  destruct (score_all_numbers _ Hcol) as (scored & Es & Em & _).
  unfold pick_accent. rewrite Es.
  pose proof (sort_reverse_perm scored_lt scored) as Perm.
  destruct (sort_reverse scored_lt scored) as [|[s c] rest].
  { apply Permutation_nil in Perm. subst scored. discriminate Em. }
  exists c. split; [reflexivity|]. right. rewrite <- Em.
  apply (in_map snd scored (s, c)).
  apply (Permutation_in _ Perm). left. reflexivity.
Qed.

(** ** Blending *)

Lemma blend_ends_all :
  forallb (fun a => forallb (blend_ends a) (range 256)) (range 256) = true.
Proof. vm_compute. reflexivity. Qed.

Lemma mix_ends (a b : Z) :
  is_channel a = true -> is_channel b = true ->
  Py.int_of_float (Py.float_of_Z a + Py.float_of_Z (b - a) * 0)%float = Some a
  /\ Py.int_of_float (Py.float_of_Z a + Py.float_of_Z (b - a) * 1)%float
     = Some b.
Proof.
  intros Ha Hb. pose proof (channel_pairs _ blend_ends_all a b Ha Hb) as H.
  unfold blend_ends in H. cbv zeta in H.
  destruct (Py.int_of_float (_ + _ * 0)) as [x|]; [|discriminate H].
  destruct (Py.int_of_float (_ + _ * 1)) as [y|]; [|discriminate H].
  apply andb_true_iff in H. rewrite !Z.eqb_eq in H. destruct H as [-> ->].
  split; reflexivity.
Qed.

(** Blending two [#rrggbb] colours with factor 0.0 gives the first one and
    with factor 1.0 the second one, exactly. *)
Theorem blend_ends_are_the_colors (hex1 hex2 : string) :
  is_hex6 hex1 = true -> is_hex6 hex2 = true ->
  blend hex1 hex2 0 = Some hex1 /\ blend hex1 hex2 1 = Some hex2.
Proof.
  intros H1 H2.
  destruct (hex6_read_back hex1 H1)
    as (r1 & g1 & b1 & E1 & Cr1 & Cg1 & Cb1 & F1).
  destruct (hex6_read_back hex2 H2)
    as (r2 & g2 & b2 & E2 & Cr2 & Cg2 & Cb2 & F2).
  unfold blend. rewrite E1, E2. cbv zeta.
  destruct (mix_ends r1 r2 Cr1 Cr2) as [-> ->].
  destruct (mix_ends g1 g2 Cg1 Cg2) as [-> ->].
  destruct (mix_ends b1 b2 Cb1 Cb2) as [-> ->].
  rewrite F1, F2. split; reflexivity.
Qed.

Lemma blend_ends_are_the_colors_witness :
  blend "#c41e3a" "#000000" 0 = Some "#c41e3a"%string
  /\ blend "#c41e3a" "#000000" 1 = Some "#000000"%string.
Proof. apply blend_ends_are_the_colors; reflexivity. Defined.

(** ** Colour distance *)

Lemma squares_symmetric :
  forallb (fun a => forallb (square_symmetric a) (range 256)) (range 256)
  = true.
Proof. vm_compute. reflexivity. Qed.

Lemma squares_self_zero : forallb square_self_zero (range 256) = true.
Proof. vm_compute. reflexivity. Qed.

Lemma square_sym (a b : Z) :
  is_channel a = true -> is_channel b = true ->
  ((Py.float_of_Z a - Py.float_of_Z b) * (Py.float_of_Z a - Py.float_of_Z b)
   = (Py.float_of_Z b - Py.float_of_Z a) * (Py.float_of_Z b - Py.float_of_Z a))%float.
Proof.
  intros Ha Hb. apply FloatAxioms.Leibniz.eqb_spec.
  exact (channel_pairs _ squares_symmetric a b Ha Hb).
Qed.

Lemma square_self (a : Z) :
  is_channel a = true ->
  ((Py.float_of_Z a - Py.float_of_Z a) * (Py.float_of_Z a - Py.float_of_Z a)
   = 0)%float.
Proof.
  unfold is_channel. rewrite andb_true_iff, !Z.leb_le. intros Ha.
  apply FloatAxioms.Leibniz.eqb_spec.
  apply (forallb_range _ 256 squares_self_zero).
  change (Z.of_nat 256) with 256. lia.
Qed.

(** On pixels of an 8-bit image [color_distance] is symmetric, and the
    distance of a pixel to itself is 0. *)
Theorem color_distance_symmetric (p q : pixel) :
  is_pixel p = true -> is_pixel q = true ->
  color_distance p q = color_distance q p
  /\ color_distance p p = 0%float.
Proof.
  destruct p as [[r1 g1] b1], q as [[r2 g2] b2]. unfold is_pixel.
  rewrite !andb_true_iff. intros [[R1 G1] B1] [[R2 G2] B2].
  unfold color_distance, np.sqdist, np.to_float. cbv zeta.
  rewrite (square_sym r1 r2 R1 R2), (square_sym g1 g2 G1 G2),
    (square_sym b1 b2 B1 B2).
  split; [reflexivity|].
  rewrite (square_self r1 R1), (square_self g1 G1), (square_self b1 B1).
  reflexivity.
Qed.

Lemma color_distance_symmetric_witness :
  color_distance (196, 30, 58) (0, 0, 0) = color_distance (0, 0, 0) (196, 30, 58)
  /\ color_distance (196, 30, 58) (196, 30, 58) = 0%float.
Proof. apply color_distance_symmetric; reflexivity. Defined.

(** * Floats that cannot overflow *)

(** ** Digits *)

Lemma digits2_pos_upper (p : positive) : Zpos p < 2 ^ Zpos (digits2_pos p).
Proof.
  induction p as [p IH|p IH|]; simpl digits2_pos.
  - rewrite Pos2Z.inj_succ, Z.pow_succ_r by lia. lia.
  - rewrite Pos2Z.inj_succ, Z.pow_succ_r by lia. lia.
  - reflexivity.
Qed.

Lemma digits2_pos_lower (p : positive) : 2 ^ (Zpos (digits2_pos p) - 1) <= Zpos p.
Proof.
  induction p as [p IH|p IH|]; simpl digits2_pos.
  - rewrite Pos2Z.inj_succ. replace (Z.succ (Zpos (digits2_pos p)) - 1)
      with (Z.succ (Zpos (digits2_pos p) - 1)) by lia.
    rewrite Z.pow_succ_r by lia. lia.
  - rewrite Pos2Z.inj_succ. replace (Z.succ (Zpos (digits2_pos p)) - 1)
      with (Z.succ (Zpos (digits2_pos p) - 1)) by lia.
    rewrite Z.pow_succ_r by lia. lia.
  - simpl. lia.
Qed.

(** A positive number below [2^d] has at most [d] digits. *)
Lemma digits2_pos_le (p : positive) (d : Z) :
  Zpos p < 2 ^ d -> Zpos (digits2_pos p) <= d.
Proof.
  intros H. pose proof (digits2_pos_lower p) as L.
  destruct (Z.le_gt_cases (Zpos (digits2_pos p)) d) as [G|G]; [exact G|].
  exfalso.
  assert (2 ^ d <= 2 ^ (Zpos (digits2_pos p) - 1)).
  { destruct (Z.lt_ge_cases d 0) as [N|N].
    - rewrite (Z.pow_neg_r 2 d N). apply Z.pow_nonneg. lia.
    - apply Z.pow_le_mono_r; lia. }
  lia.
Qed.

Lemma Zdigits2_le (m d : Z) : 0 <= m < 2 ^ d -> 0 <= d -> Zdigits2 m <= d.
Proof.
  intros [H0 H] Hd. destruct m as [|p|p]; simpl.
  - exact Hd.
  - apply digits2_pos_le, H.
  - lia.
Qed.


(** ** Shifting right *)

Lemma shr_1_m (mrs : shr_record) :
  0 <= shr_m mrs -> shr_m (shr_1 mrs) = shr_m mrs / 2.
Proof.
  destruct mrs as [m r s]. simpl. intros H.
  destruct m as [|[p|p|]|p]; simpl; try lia; try reflexivity.
  - rewrite Pos2Z.inj_xI. apply Z.div_unique with (r := 1); lia.
  - rewrite Pos2Z.inj_xO. apply Z.div_unique with (r := 0); lia.
Qed.

Lemma iter_shr_1_m (p : positive) (mrs : shr_record) :
  0 <= shr_m mrs ->
  shr_m (iter_pos shr_1 p mrs) = shr_m mrs / 2 ^ Zpos p.
Proof.
  revert mrs. induction p as [p IH|p IH|]; intros mrs H.
  - simpl iter_pos.
    assert (H1 : 0 <= shr_m (shr_1 mrs)).
    { rewrite shr_1_m by exact H. apply Z.div_pos; lia. }
    assert (H2 : 0 <= shr_m (iter_pos shr_1 p (shr_1 mrs))).
    { rewrite IH by exact H1. apply Z.div_pos; [exact H1|].
      apply Z.pow_pos_nonneg; lia. }
    rewrite IH by exact H2. rewrite IH by exact H1. rewrite shr_1_m by exact H.
    rewrite !Z.div_div by (try apply Z.pow_pos_nonneg; lia).
    change 2 with (2 ^ 1) at 1.
    rewrite <- !Z.pow_add_r by lia. do 2 f_equal. lia.
  - simpl iter_pos.
    assert (H2 : 0 <= shr_m (iter_pos shr_1 p mrs)).
    { rewrite IH by exact H. apply Z.div_pos; [exact H|].
      apply Z.pow_pos_nonneg; lia. }
    rewrite IH by exact H2. rewrite IH by exact H.
    rewrite !Z.div_div by (try apply Z.pow_pos_nonneg; lia).
    rewrite <- !Z.pow_add_r by lia. do 2 f_equal. lia.
  - simpl iter_pos. rewrite shr_1_m by exact H. reflexivity.
Qed.

Lemma shr_record_of_loc_m (m : Z) (l : location) :
  shr_m (shr_record_of_loc m l) = m.
Proof. destruct l as [|[]]; reflexivity. Qed.

(** The bound that a shift to the exponent of the format keeps: a mantissa
    below [2^(K - e)] stays so at the new exponent. *)
Lemma shr_fexp_bounded (m e K : Z) (l : location) :
  0 <= m < 2 ^ (K - e) -> e <= K - 1 -> -1073 <= K ->
  let '(mrs', e') := shr_fexp prec emax m e l in
  0 <= shr_m mrs' < 2 ^ (K - e') /\ e <= e' <= K - 1.
Proof.
  intros Hm He HK. unfold shr_fexp, shr.
  assert (Hd : Zdigits2 m <= K - e) by (apply Zdigits2_le; lia).
  assert (Hf : fexp prec emax (Zdigits2 m + e) <= K - 1).
  { unfold fexp, emin, prec, emax. lia. }
  destruct (fexp prec emax (Zdigits2 m + e) - e) as [|p|p] eqn:En.
  - rewrite shr_record_of_loc_m. lia.
  - rewrite iter_shr_1_m by (rewrite shr_record_of_loc_m; lia).
    rewrite shr_record_of_loc_m. split; [|lia]. split.
    + apply Z.div_pos; [lia|apply Z.pow_pos_nonneg; lia].
    + apply Z.div_lt_upper_bound; [apply Z.pow_pos_nonneg; lia|].
      rewrite <- Z.pow_add_r by lia.
      replace (Zpos p + (K - (e + Zpos p))) with (K - e) by lia. lia.
  - rewrite shr_record_of_loc_m. lia.
Qed.

Lemma round_nearest_even_le (m : Z) (l : location) :
  m <= round_nearest_even m l <= m + 1.
Proof.
  destruct l as [|[]]; simpl; try lia. destruct (Z.even m); lia.
Qed.

(** Rounding a number below [2^K] gives a finite float below [2^(K+1)]. *)
Lemma binary_round_aux_bounded (sx : bool) (mx ex K : Z) (lx : location) :
  0 <= mx < 2 ^ (K - ex) -> ex <= K - 1 -> -1073 <= K <= 970 ->
  SBs (K + 1) (binary_round_aux prec emax sx mx ex lx).
Proof.
  intros Hm He HK. unfold binary_round_aux.
  pose proof (shr_fexp_bounded mx ex K lx Hm He ltac:(lia)) as H1.
  destruct (shr_fexp prec emax mx ex lx) as [mrs' e'].
  destruct H1 as [Hm' He'].
  pose proof (round_nearest_even_le (shr_m mrs') (loc_of_shr_record mrs')) as Hr.
  set (mr := round_nearest_even (shr_m mrs') (loc_of_shr_record mrs')) in *.
  assert (Hmr : 0 <= mr < 2 ^ (K + 1 - e')).
  { replace (K + 1 - e') with (Z.succ (K - e')) by lia.
    rewrite Z.pow_succ_r by lia. lia. }
  pose proof (shr_fexp_bounded mr e' (K + 1) loc_Exact Hmr ltac:(lia) ltac:(lia))
    as H2.
  destruct (shr_fexp prec emax mr e' loc_Exact) as [mrs'' e''].
  destruct H2 as [Hm'' He''].
  destruct (shr_m mrs'') as [|p|p] eqn:Ep.
  - exact I.
  - replace (e'' <=? emax - prec) with true.
    + simpl. lia.
    + symmetry. apply Z.leb_le. unfold emax, prec. lia.
  - lia.
Qed.

Lemma SBs_weaken (K K' : Z) (f : spec_float) : K <= K' -> SBs K f -> SBs K' f.
Proof.
  intros H. destruct f as [s|s| |s m e]; simpl; auto.
  intros Hm. eapply Z.lt_le_trans; [exact Hm|].
  destruct (Z.lt_ge_cases (K - e) 0) as [N|N].
  - rewrite (Z.pow_neg_r 2 _ N) in Hm. lia.
  - apply Z.pow_le_mono_r; lia.
Qed.

(** A positive number below [2^a] leaves [a] positive. *)
Lemma pow_bound_pos (p : positive) (a : Z) : Zpos p < 2 ^ a -> 1 <= a.
Proof.
  intros H. destruct (Z.lt_ge_cases a 1) as [N|N]; [|exact N]. exfalso.
  destruct (Z.eq_dec a 0) as [->|Na]; [simpl in H; lia|].
  rewrite Z.pow_neg_r in H by lia. lia.
Qed.

Lemma pos_iter_xO (m d : positive) :
  Zpos (Pos.iter xO m d) = Zpos m * 2 ^ Zpos d.
Proof.
  induction d as [|d IH] using Pos.peano_ind.
  - simpl. lia.
  - rewrite Pos.iter_succ, Pos2Z.inj_xO, IH, Pos2Z.inj_succ,
      Z.pow_succ_r by lia. lia.
Qed.

Lemma shl_align_spec (mx : positive) (ex ex' : Z) :
  let '(m', e') := shl_align mx ex ex' in
  Zpos m' = Zpos mx * 2 ^ (ex - e') /\ e' <= ex /\ (ex' <= ex -> e' = ex').
Proof.
  unfold shl_align. destruct (ex' - ex) as [|d|d] eqn:E.
  - rewrite Z.sub_diag. simpl. lia.
  - rewrite Z.sub_diag. simpl. lia.
  - rewrite pos_iter_xO. replace (ex - ex') with (Zpos d) by lia. lia.
Qed.

Lemma binary_round_bounded (sx : bool) (mx : positive) (ex K : Z) :
  Zpos mx < 2 ^ (K - ex) -> -1073 <= K <= 970 ->
  SBs (K + 1) (binary_round prec emax sx mx ex).
Proof.
  intros Hm HK. unfold binary_round.
  pose proof (shl_align_spec mx ex (fexp prec emax (Zpos (digits2_pos mx) + ex)))
    as H.
  destruct (shl_align mx ex _) as [mz ez]. destruct H as (Ez & Le & _).
  pose proof (pow_bound_pos _ _ Hm) as Ha.
  apply binary_round_aux_bounded; [|lia|lia].
  split; [lia|]. rewrite Ez.
  replace (K - ez) with ((K - ex) + (ex - ez)) by lia.
  rewrite Z.pow_add_r by lia.
  apply Z.mul_lt_mono_pos_r; [apply Z.pow_pos_nonneg; lia|exact Hm].
Qed.

Lemma binary_normalize_bounded (z e K : Z) (szero : bool) :
  Z.abs z < 2 ^ (K - e) -> -1073 <= K <= 970 ->
  SBs (K + 1) (binary_normalize prec emax z e szero).
Proof.
  intros Hz HK. destruct z as [|p|p]; simpl.
  - exact I.
  - apply binary_round_bounded; [exact Hz|exact HK].
  - apply binary_round_bounded; [exact Hz|exact HK].
Qed.

Lemma SFmul_bounded (K1 K2 : Z) (x y : spec_float) :
  SBs K1 x -> SBs K2 y -> -1073 <= K1 + K2 <= 970 ->
  SBs (K1 + K2 + 1) (SFmul prec emax x y).
Proof.
  intros Hx Hy HK.
  destruct x as [sx|sx| |sx mx ex]; try contradiction;
    destruct y as [sy|sy| |sy my ey]; try contradiction; simpl; try exact I.
  simpl in Hx, Hy.
  pose proof (pow_bound_pos _ _ Hx). pose proof (pow_bound_pos _ _ Hy).
  apply binary_round_aux_bounded; [|lia|lia].
  split; [lia|].
  replace (K1 + K2 - (ex + ey)) with ((K1 - ex) + (K2 - ey)) by lia.
  rewrite Z.pow_add_r, Pos2Z.inj_mul by lia.
  apply Z.mul_lt_mono_nonneg; lia.
Qed.

Lemma shl_align_fst (mx : positive) (ex ez : Z) :
  ez <= ex -> Zpos (fst (shl_align mx ex ez)) = Zpos mx * 2 ^ (ex - ez).
Proof.
  intros H. pose proof (shl_align_spec mx ex ez) as S.
  destruct (shl_align mx ex ez) as [m' e']. simpl.
  destruct S as (E & _ & Ee). rewrite (Ee H) in E. exact E.
Qed.

Lemma aligned_bounded (mx : positive) (ex ez K : Z) :
  ez <= ex -> Zpos mx < 2 ^ (K - ex) ->
  Zpos (fst (shl_align mx ex ez)) < 2 ^ (K - ez).
Proof.
  intros He Hm. rewrite (shl_align_fst mx ex ez He).
  pose proof (pow_bound_pos _ _ Hm).
  replace (K - ez) with ((K - ex) + (ex - ez)) by lia.
  rewrite Z.pow_add_r by lia.
  apply Z.mul_lt_mono_pos_r; [apply Z.pow_pos_nonneg; lia|exact Hm].
Qed.

Lemma cond_Zopp_abs (b : bool) (m : Z) : Z.abs (cond_Zopp b m) = Z.abs m.
Proof. destruct b; simpl; [apply Z.abs_opp|reflexivity]. Qed.

Lemma sum_bounded (a b K1 K2 e : Z) :
  Z.abs a < 2 ^ (K1 - e) -> Z.abs b < 2 ^ (K2 - e) ->
  1 <= K1 - e -> 1 <= K2 - e ->
  Z.abs (a + b) < 2 ^ (Z.max K1 K2 + 1 - e)
  /\ Z.abs (a - b) < 2 ^ (Z.max K1 K2 + 1 - e).
Proof.
  intros Ha Hb H1 H2.
  assert (P1 : 2 ^ (K1 - e) <= 2 ^ (Z.max K1 K2 - e))
    by (apply Z.pow_le_mono_r; lia).
  assert (P2 : 2 ^ (K2 - e) <= 2 ^ (Z.max K1 K2 - e))
    by (apply Z.pow_le_mono_r; lia).
  replace (Z.max K1 K2 + 1 - e) with (Z.succ (Z.max K1 K2 - e)) by lia.
  rewrite Z.pow_succ_r by lia. lia.
Qed.

Lemma SFadd_bounded (K1 K2 : Z) (x y : spec_float) :
  SBs K1 x -> SBs K2 y -> -1073 <= K1 -> -1073 <= K2 ->
  Z.max K1 K2 + 1 <= 970 ->
  SBs (Z.max K1 K2 + 2) (SFadd prec emax x y).
Proof.
  intros Hx Hy H1 H2 HK.
  destruct x as [sx|sx| |sx mx ex]; try contradiction;
    destruct y as [sy|sy| |sy my ey]; try contradiction.
  - simpl. destruct sx, sy; exact I.
  - apply (SBs_weaken K2 (Z.max K1 K2 + 2) (S754_finite sy my ey));
      [lia|exact Hy].
  - apply (SBs_weaken K1 (Z.max K1 K2 + 2) (S754_finite sx mx ex));
      [lia|exact Hx].
  - unfold SFadd. cbv zeta. simpl in Hx, Hy.
    pose proof (pow_bound_pos _ _ Hx). pose proof (pow_bound_pos _ _ Hy).
    replace (Z.max K1 K2 + 2) with (Z.max K1 K2 + 1 + 1) by lia.
    apply binary_normalize_bounded; [|lia].
    apply sum_bounded; rewrite ?cond_Zopp_abs; simpl Z.abs; try lia;
      apply aligned_bounded; (lia || assumption).
Qed.

Lemma SFsub_bounded (K1 K2 : Z) (x y : spec_float) :
  SBs K1 x -> SBs K2 y -> -1073 <= K1 -> -1073 <= K2 ->
  Z.max K1 K2 + 1 <= 970 ->
  SBs (Z.max K1 K2 + 2) (SFsub prec emax x y).
Proof.
  intros Hx Hy H1 H2 HK.
  destruct x as [sx|sx| |sx mx ex]; try contradiction;
    destruct y as [sy|sy| |sy my ey]; try contradiction.
  - simpl. destruct sx, sy; exact I.
  - apply (SBs_weaken K2 (Z.max K1 K2 + 2) (S754_finite (negb sy) my ey));
      [lia|exact Hy].
  - apply (SBs_weaken K1 (Z.max K1 K2 + 2) (S754_finite sx mx ex));
      [lia|exact Hx].
  - unfold SFsub. cbv zeta. simpl in Hx, Hy.
    pose proof (pow_bound_pos _ _ Hx). pose proof (pow_bound_pos _ _ Hy).
    replace (Z.max K1 K2 + 2) with (Z.max K1 K2 + 1 + 1) by lia.
    apply binary_normalize_bounded; [|lia].
    apply sum_bounded; rewrite ?cond_Zopp_abs; simpl Z.abs; try lia;
      apply aligned_bounded; (lia || assumption).
Qed.

Lemma SFopp_bounded (K : Z) (x : spec_float) : SBs K x -> SBs K (SFopp x).
Proof. destruct x; simpl; auto. Qed.

(** ** Bounded primitive floats *)

Lemma SB_weaken (K K' : Z) (x : float) : K <= K' -> SB K x -> SB K' x.
Proof. apply SBs_weaken. Qed.

Lemma SB_mul (K1 K2 K : Z) (x y : float) :
  SB K1 x -> SB K2 y -> -1073 <= K1 + K2 -> K1 + K2 + 1 <= K -> K <= 971 ->
  SB K (x * y).
Proof.
  intros Hx Hy H1 H2 H3. unfold SB. rewrite mul_spec.
  eapply SBs_weaken; [exact H2|]. apply SFmul_bounded; try assumption. lia.
Qed.

Lemma SB_add (K1 K2 K : Z) (x y : float) :
  SB K1 x -> SB K2 y -> -1073 <= K1 -> -1073 <= K2 ->
  Z.max K1 K2 + 2 <= K -> K <= 971 ->
  SB K (x + y).
Proof.
  intros Hx Hy H1 H2 H3 H4. unfold SB. rewrite add_spec.
  eapply SBs_weaken; [exact H3|]. apply SFadd_bounded; try assumption. lia.
Qed.

Lemma SB_sub (K1 K2 K : Z) (x y : float) :
  SB K1 x -> SB K2 y -> -1073 <= K1 -> -1073 <= K2 ->
  Z.max K1 K2 + 2 <= K -> K <= 971 ->
  SB K (x - y).
Proof.
  intros Hx Hy H1 H2 H3 H4. unfold SB. rewrite sub_spec.
  eapply SBs_weaken; [exact H3|]. apply SFsub_bounded; try assumption. lia.
Qed.

Lemma SB_opp (K : Z) (x : float) : SB K x -> SB K (- x).
Proof. unfold SB. rewrite opp_spec. apply SFopp_bounded. Qed.

Lemma SFcompare_refl (f : spec_float) :
  f <> S754_nan -> SFcompare f f = Some Eq.
Proof.
  destruct f as [s|s| |s m e]; try congruence; intros _; simpl.
  - reflexivity.
  - destruct s; reflexivity.
  - rewrite Z.compare_refl, Pos.compare_cont_refl. destruct s; reflexivity.
Qed.

(** A bounded float is finite. *)
Lemma SB_is_finite (K : Z) (x : float) : SB K x -> is_finite x = true.
Proof.
  unfold SB, is_finite, is_nan, is_infinity. intros H.
  rewrite !eqb_spec, abs_spec.
  replace (Prim2SF infinity) with (S754_infinity false) by reflexivity.
  unfold SFeqb. rewrite SFcompare_refl.
  - destruct (Prim2SF x) as [s|s| |s m e]; try contradiction; reflexivity.
  - destruct (Prim2SF x); try contradiction; congruence.
Qed.

(** A float that is at most a positive constant in magnitude is bounded. *)
Lemma SB_of_leb (x c : float) (mc : positive) (ec : Z) :
  Prim2SF c = S754_finite false mc ec ->
  PrimFloat.leb (abs x) c = true -> SB (53 + ec) x.
Proof.
  intros Ec H. rewrite leb_spec, abs_spec, Ec in H. unfold SB.
  pose proof (Prim2SF_valid x) as V.
  destruct (Prim2SF x) as [s|s| |s m e]; simpl in H; try discriminate H.
  - exact I.
  - change (Zpos m < 2 ^ (53 + ec - e)). unfold SFleb in H. simpl in H.
    simpl in V. unfold bounded, canonical_mantissa in V.
    apply andb_true_iff in V. destruct V as [V _]. apply Z.eqb_eq in V.
    unfold fexp, emin, prec, emax in V.
    assert (D : Zpos (digits2_pos m) <= 53) by lia.
    assert (E : e <= ec).
    { destruct (Z.compare_spec e ec); try lia; try discriminate H. }
    eapply Z.lt_le_trans; [apply digits2_pos_upper|].
    apply Z.pow_le_mono_r; lia.
Qed.

Lemma SB_of_uint63 (n : int) : SB 64 (of_uint63 n).
Proof.
  unfold SB. rewrite of_uint63_spec.
  apply (binary_normalize_bounded _ 0 63); [|lia].
  pose proof (Uint63.to_Z_bounded n) as B.
  rewrite Z.abs_eq by lia. change (2 ^ (63 - 0)) with wB. lia.
Qed.

Lemma SB_ldshiftexp (K K' : Z) (x : float) (e : int) :
  SB K x -> -1073 <= K + (to_Z e - shift) -> K + (to_Z e - shift) + 1 <= K' ->
  K' <= 971 ->
  SB K' (ldshiftexp x e).
Proof.
  unfold SB. intros H H1 H2 H3. rewrite ldshiftexp_spec.
  destruct (Prim2SF x) as [s|s| |s m ex]; try contradiction; simpl.
  - exact I.
  - eapply SBs_weaken; [exact H2|].
    apply binary_round_bounded; [|lia]. simpl in H.
    replace (K + (to_Z e - shift) - (ex + (to_Z e - shift))) with (K - ex)
      by lia.
    exact H.
Qed.

(** * The palette is total *)

(** ** Classes of floats *)

Lemma prim_finite (x : float) :
  is_nan x = false -> is_infinity x = false -> PrimFloat.eqb x 0 = false ->
  exists s m e, Prim2SF x = S754_finite s m e.
Proof.
  unfold is_nan, is_infinity. rewrite !eqb_spec, abs_spec.
  replace (Prim2SF infinity) with (S754_infinity false) by reflexivity.
  replace (Prim2SF 0) with (S754_zero false) by reflexivity.
  destruct (Prim2SF x) as [s|s| |s m e]; simpl; try discriminate.
  intros _ _ _. eauto.
Qed.

Lemma SB_zero (K : Z) (x : float) : PrimFloat.eqb x 0 = true -> SB K x.
Proof.
  unfold SB. rewrite eqb_spec.
  replace (Prim2SF 0) with (S754_zero false) by reflexivity.
  destruct (Prim2SF x) as [s|s| |s m e]; simpl; try discriminate.
  - intros _. exact I.
  - destruct s; discriminate.
  - destruct s; discriminate.
Qed.

Lemma ltb_nan (x c : float) :
  Prim2SF x = S754_nan -> PrimFloat.ltb x c = false.
Proof. intros H. rewrite ltb_spec, H. reflexivity. Qed.

(** The exponent that [decode] gives: digits and exponent of the float. *)
Lemma decode_exponent (x : float) (s : bool) (m : positive) (e : Z)
  (mx ex : int) :
  Prim2SF x = S754_finite s m e -> Py.decode x = (mx, ex) ->
  to_Z ex - shift = e + Zpos (digits2_pos m).
Proof.
  intros Hx Hd. unfold Py.decode in Hd.
  pose proof (frshiftexp_spec (abs x)) as F.
  destruct (frshiftexp (abs x)) as [fm fe]. injection Hd as _ <-.
  rewrite abs_spec, Hx in F. simpl SFabs in F. unfold SFfrexp in F.
  pose proof (Prim2SF_valid x) as V. rewrite Hx in V. simpl in V.
  unfold bounded, canonical_mantissa in V.
  apply andb_true_iff in V. destruct V as [V _]. apply Z.eqb_eq in V.
  unfold fexp, emin in V. unfold prec, emax in *.
  destruct (53 <=? Zpos (digits2_pos m)) eqn:D.
  - apply Z.leb_le in D. injection F as _ F. rewrite F. lia.
  - apply Z.leb_gt in D. injection F as _ F. rewrite F.
    change (IntDef.Z.pos_sub 53 (digits2_pos m))
      with (53 - Zpos (digits2_pos m)).
    lia.
Qed.

Ltac sb_const := unfold SB; vm_compute; reflexivity.

(** ** The remainder of a division by 1 *)

Lemma fmod_1_bounded (x : float) :
  Prim2SF (Py.fmod x 1) = S754_nan \/ SB 13 (Py.fmod x 1).
Proof.
  unfold Py.fmod.
  replace (is_nan 1) with false by reflexivity.
  replace (PrimFloat.eqb 1 0) with false by reflexivity.
  replace (is_infinity 1) with false by reflexivity.
  destruct (is_nan x) eqn:Nx; [left; reflexivity|].
  destruct (is_infinity x) eqn:Ix; [left; reflexivity|].
  right. cbn [orb]. unfold Py.fmod_finite.
  destruct (Py.decode x) as [mx ex] eqn:Dx.
  destruct (Py.decode 1) as [my ey] eqn:Dy.
  vm_compute in Dy. injection Dy as <- <-.
  destruct (PrimFloat.eqb x 0) eqn:E0; [apply SB_zero, E0|].
  destruct (prim_finite x Nx Ix E0) as (s & m & e & Hx).
  pose proof (decode_exponent x s m e mx ex Hx Dx) as He.
  destruct (ex <? 2102)%uint63 eqn:El.
  - apply Uint63.ltb_spec in El. change (to_Z 2102) with 2102 in El.
    unfold shift in He. unfold SB. rewrite Hx.
    change (Zpos m < 2 ^ (13 - e)).
    eapply Z.lt_le_trans; [apply digits2_pos_upper|].
    apply Z.pow_le_mono_r; lia.
  - assert (M : SB 13 (ldshiftexp (of_uint63
                 (Py.shift_mod Py.exponent_span (ex - 2102)
                    (PrimInt63.mod mx 4503599627370496) 4503599627370496))
                 (2102 - 53)%uint63)).
    { apply (SB_ldshiftexp 64); [apply SB_of_uint63| | |lia];
        change (to_Z (2102 - 53)) with 2049; unfold shift; lia. }
    destruct (PrimFloat.ltb x 0); [apply SB_opp|]; exact M.
Qed.

Lemma rem_1_bounded (x : float) :
  Prim2SF (Py.rem_nz x 1) = S754_nan \/ SB 15 (Py.rem_nz x 1).
Proof.
  unfold Py.rem_nz, Py.rem.
  replace (PrimFloat.eqb 1 0) with false by reflexivity.
  replace (PrimFloat.ltb 1 0) with false by reflexivity.
  destruct (fmod_1_bounded x) as [N|B].
  - destruct (negb (PrimFloat.eqb (Py.fmod x 1) 0) || is_nan (Py.fmod x 1)).
    + destruct (negb (Bool.eqb false (PrimFloat.ltb (Py.fmod x 1) 0))).
      * left. rewrite add_spec, N. reflexivity.
      * left. exact N.
    + right. sb_const.
  - right.
    destruct (negb (PrimFloat.eqb (Py.fmod x 1) 0) || is_nan (Py.fmod x 1)).
    + destruct (negb (Bool.eqb false (PrimFloat.ltb (Py.fmod x 1) 0))).
      * apply (SB_add 13 1); [exact B|sb_const|lia|lia|lia|lia].
      * apply (SB_weaken 13); [lia|exact B].
    + sb_const.
Qed.

(** ** Channels that cannot overflow *)

Lemma v_bounded (m1 m2 hue : float) :
  SB 3 m1 -> SB 3 m2 -> SB 40 (colorsys._v m1 m2 hue * 255).
Proof.
  intros H1 H2. unfold colorsys._v.
  assert (C6 : SB 3 6) by sb_const.
  assert (C255 : SB 8 255) by sb_const.
  assert (C23 : SB 0 colorsys.TWO_THIRD) by sb_const.
  assert (D : SB 5 (m2 - m1)) by (apply (SB_sub 3 3); auto; lia).
  destruct (rem_1_bounded hue) as [N|B].
  - rewrite !(ltb_nan _ _ N). apply (SB_mul 3 8); auto; lia.
  - set (t := Py.rem_nz hue 1) in *.
    destruct (PrimFloat.ltb t colorsys.ONE_SIXTH).
    { apply (SB_mul 27 8); [|exact C255|lia|lia|lia].
      apply (SB_add 3 25); [exact H1| |lia|lia|lia|lia].
      apply (SB_mul 21 3); [|exact C6|lia|lia|lia].
      apply (SB_mul 5 15); [exact D|exact B|lia|lia|lia]. }
    destruct (PrimFloat.ltb t 0.5).
    { apply (SB_mul 3 8); auto; lia. }
    destruct (PrimFloat.ltb t colorsys.TWO_THIRD).
    { apply (SB_mul 29 8); [|exact C255|lia|lia|lia].
      apply (SB_add 3 27); [exact H1| |lia|lia|lia|lia].
      apply (SB_mul 23 3); [|exact C6|lia|lia|lia].
      apply (SB_mul 5 17); [exact D| |lia|lia|lia].
      apply (SB_sub 0 15); [exact C23|exact B|lia|lia|lia|lia]. }
    apply (SB_mul 3 8); auto; lia.
Qed.

Lemma SB_of_leb_4 (x : float) : PrimFloat.leb (abs x) 4 = true -> SB 3 x.
Proof.
  intros H.
  apply (SB_of_leb x 4 4503599627370496%positive (-50) eq_refl H).
Qed.

Lemma int_of_float_bounded (K : Z) (x : float) :
  SB K x -> Py.int_of_float x = Some (Py.trunc x).
Proof.
  intros H. unfold Py.int_of_float. rewrite (SB_is_finite K x H). reflexivity.
Qed.

(** [hsl_to_rgb] returns, for any hue, when saturation and lightness keep
    the two levels [m1] and [m2] of [colorsys] within bounds. *)
Lemma hsl_to_rgb_total (h s l : float) :
  good_sl s l = true -> exists r g b, hsl_to_rgb h s l = Some (r, g, b).
Proof.
  unfold good_sl, hsl_to_rgb, colorsys.hls_to_rgb. cbv zeta.
  destruct (PrimFloat.eqb (s / 100) 0).
  - intros G. apply SB_of_leb_4 in G.
    assert (B : SB 12 (l / 100 * 255))
      by (apply (SB_mul 3 8); [exact G|sb_const|lia|lia|lia]).
    rewrite (int_of_float_bounded 12 _ B). eauto.
  - intros G. apply andb_true_iff in G. destruct G as [G1 G2].
    apply SB_of_leb_4 in G1, G2.
    rewrite (int_of_float_bounded 40 _ (v_bounded _ _ _ G1 G2)).
    rewrite (int_of_float_bounded 40 _ (v_bounded _ _ _ G1 G2)).
    rewrite (int_of_float_bounded 40 _ (v_bounded _ _ _ G1 G2)).
    eauto.
Qed.

Lemma hsl_to_hex_total (h s l : float) :
  good_sl s l = true ->
  exists x, hsl_to_hex h s l = Some x /\ is_hex6 x = true.
Proof.
  intros G. destruct (hsl_to_rgb_total h s l G) as (r & g & b & E).
  unfold hsl_to_hex. rewrite E. eexists. split; [reflexivity|].
  apply rgb_to_hex_is_hex6.
Qed.

Lemma palettes_good :
  forallb (fun i => forallb (palette_good i) (range 256)) (range 256) = true.
Proof. vm_compute. reflexivity. Qed.

(** ** Lightening and darkening *)

Lemma color_levels (c : string) :
  is_color c = true ->
  exists i j h l s,
    is_channel i = true /\ is_channel j = true /\ j <= i
    /\ lightness_saturation (channel_float i) (channel_float j) = Some (l, s)
    /\ hex_to_hsl c = Some (h, (s * 100)%float, (l * 100)%float).
Proof.
  unfold is_color, hex_to_hsl.
  destruct (hex_to_rgb c) as [[[r g] b]|]; [|discriminate].
  rewrite !andb_true_iff. intros [[Hr Hg] Hb].
  destruct (rgb_to_hsl_by_extremes r g b Hr Hg Hb)
    as (i & j & Hi & Hj & Hij & _ & ->).
  destruct (score_of_extremes i j Hi Hj Hij) as (l & s & E & _).
  exists i, j. rewrite E. eauto 10.
Qed.

Lemma lighten_total (amount : float) :
  forallb (fun i => forallb (lighten_good amount i) (range 256)) (range 256)
  = true ->
  forall c, is_color c = true ->
    exists x, lighten c amount = Some x /\ is_hex6 x = true.
Proof.
  intros All c Hc.
  destruct (color_levels c Hc) as (i & j & h & l & s & Hi & Hj & Hij & E & Eh).
  pose proof (channel_pairs _ All i j Hi Hj) as G.
  unfold lighten_good in G. rewrite E in G.
  destruct (Z.ltb_spec i j); [lia|]. simpl in G.
  unfold lighten. rewrite Eh. apply hsl_to_hex_total, G.
Qed.

Lemma darken_total (amount : float) :
  forallb (fun i => forallb (darken_good amount i) (range 256)) (range 256)
  = true ->
  forall c, is_color c = true ->
    exists x, darken c amount = Some x /\ is_hex6 x = true.
Proof.
  intros All c Hc.
  destruct (color_levels c Hc) as (i & j & h & l & s & Hi & Hj & Hij & E & Eh).
  pose proof (channel_pairs _ All i j Hi Hj) as G.
  unfold darken_good in G. rewrite E in G.
  destruct (Z.ltb_spec i j); [lia|]. simpl in G.
  unfold darken. rewrite Eh. apply hsl_to_hex_total, G.
Qed.

Lemma lighten_good_3 :
  forallb (fun i => forallb (lighten_good 3 i) (range 256)) (range 256) = true.
Proof. vm_compute. reflexivity. Qed.

Lemma lighten_good_8 :
  forallb (fun i => forallb (lighten_good 8 i) (range 256)) (range 256) = true.
Proof. vm_compute. reflexivity. Qed.

Lemma lighten_good_10 :
  forallb (fun i => forallb (lighten_good 10 i) (range 256)) (range 256) = true.
Proof. vm_compute. reflexivity. Qed.

Lemma lighten_good_12 :
  forallb (fun i => forallb (lighten_good 12 i) (range 256)) (range 256) = true.
Proof. vm_compute. reflexivity. Qed.

Lemma darken_good_10 :
  forallb (fun i => forallb (darken_good 10 i) (range 256)) (range 256) = true.
Proof. vm_compute. reflexivity. Qed.

Lemma darken_good_15 :
  forallb (fun i => forallb (darken_good 15 i) (range 256)) (range 256) = true.
Proof. vm_compute. reflexivity. Qed.

Lemma lighten_hex6 (c : string) (amount : float) :
  (amount = 3 \/ amount = 8 \/ amount = 10 \/ amount = 12)%float ->
  is_hex6 c = true ->
  exists x, lighten c amount = Some x /\ is_hex6 x = true.
Proof.
  intros A H. apply hex6_is_color in H.
  destruct A as [-> | [-> | [-> | ->]]].
  - exact (lighten_total _ lighten_good_3 c H).
  - exact (lighten_total _ lighten_good_8 c H).
  - exact (lighten_total _ lighten_good_10 c H).
  - exact (lighten_total _ lighten_good_12 c H).
Qed.

(** ** The palette is always generated *)

Lemma forallb_cons_true {A : Type} (f : A -> bool) (x : A) (l : list A) :
  forallb f (x :: l) = true -> f x = true /\ forallb f l = true.
Proof. simpl. apply andb_true_iff. Qed.

Ltac role_step :=
  match goal with
  | |- context [hsl_to_hex ?h ?s ?l] =>
      let G := fresh "G" in
      let x := fresh "x" in
      let E := fresh "E" in
      let X := fresh "X" in
      assert (G : good_sl s l = true) by (first [assumption|reflexivity]);
      destruct (hsl_to_hex_total h s l G) as (x & E & X);
      rewrite E; clear E G; cbv beta iota zeta
  end.

Ltac lighten_step :=
  match goal with
  | |- context [lighten ?c ?a] =>
      let x := fresh "x" in
      let E := fresh "E" in
      let X := fresh "X" in
      destruct (lighten_hex6 c a) as (x & E & X);
      [auto 6|assumption|];
      rewrite E; clear E; cbv beta iota zeta
  end.

Lemma derive_palette_total (i j : Z) (l s ah : float) (wallpaper_path : string) :
  is_channel i = true -> is_channel j = true -> j <= i ->
  lightness_saturation (channel_float i) (channel_float j) = Some (l, s) ->
  exists p,
    (let '(a_s, al) := normalize_accent (s * 100) (l * 100) in
     derive_palette ah a_s al wallpaper_path) = Some p
    /\ map fst p = role_keys
    /\ lookup "wallpaper" p = Some wallpaper_path
    /\ (forall k v, In (k, v) p -> k <> "wallpaper"%string -> is_hex6 v = true).
Proof.
  intros Hi Hj Hij E.
  pose proof (channel_pairs _ palettes_good i j Hi Hj) as G.
  unfold palette_good in G. rewrite E in G.
  destruct (Z.ltb_spec i j); [lia|]. rewrite orb_false_l in G. revert G.
  destruct (normalize_accent (s * 100) (l * 100)) as [a_s al]. intros G.
  unfold role_levels in G.
  repeat (apply forallb_cons_true in G;
          let H := fresh "R" in destruct G as [H G]; cbn [fst snd] in H).
  clear G. unfold derive_palette.
  repeat role_step. repeat lighten_step.
  eexists. split; [reflexivity|]. split; [reflexivity|].
  split; [reflexivity|].
  intros key val Hin Hk. simpl in Hin.
  repeat (destruct Hin as [Hin|Hin];
          [injection Hin as <- <-; first [congruence|assumption]|]).
  destruct Hin.
Qed.

(** C8: [generate_palette] is total on every accent whose channels
    [hex_to_rgb] reads in [0, 255] (every [#rrggbb] string is one): it
    returns a palette with every role key, in the order of the source,
    [wallpaper] holding the path it was given and every other value a
    colour [#rrggbb] in lower-case digits ([^#[0-9a-f]{6}$]). *)
Theorem generate_palette_total (accent_hex wallpaper_path : string) :
  is_color accent_hex = true ->
  exists p,
    generate_palette accent_hex wallpaper_path = Some p
    /\ map fst p = role_keys
    /\ lookup "wallpaper" p = Some wallpaper_path
    /\ (forall k v, In (k, v) p -> k <> "wallpaper"%string -> is_hex6 v = true).
Proof.
  intros Hc.
  destruct (color_levels _ Hc)
    as (i & j & h & l & s & Hi & Hj & Hij & E & Eh).
  unfold generate_palette. rewrite Eh.
  apply (derive_palette_total i j l s h wallpaper_path Hi Hj Hij E).
Qed.

Lemma generate_palette_total_witness :
  exists p,
    generate_palette "#c41e3a" "w.png" = Some p
    /\ map fst p = role_keys
    /\ lookup "wallpaper" p = Some "w.png"%string
    /\ (forall k v, In (k, v) p -> k <> "wallpaper"%string -> is_hex6 v = true).
Proof. apply generate_palette_total. reflexivity. Defined.

(** ** From the sample to the palette

    What [extract_colors] returns for a sample is a list of [#rrggbb]
    colours, as many as [kmeans_colors] found; [pick_accent] never raises
    on such a list, and what it picks is one of these colours, or the
    fallback [#c41e3a] when there is none: in both cases a [#rrggbb]
    colour, that [get_gnome_accent_name] names and for which
    [generate_palette] returns a palette with every role key. *)
Theorem extracted_colors_give_an_accent (sample : list pixel) (num_colors : Z)
  (colors : list string) :
  colors_of_sample sample num_colors = Some colors ->
  Forall (fun c => is_hex6 c = true) colors
  /\ (exists centroids, kmeans_colors sample num_colors 20 = Some centroids
                        /\ List.length colors = List.length centroids)
  /\ exists accent,
       pick_accent colors = Some accent
       /\ is_hex6 accent = true
       /\ ((colors = [] /\ accent = "#c41e3a"%string) \/ In accent colors)
       /\ (exists name, get_gnome_accent_name accent = Some name)
       /\ (forall wallpaper_path,
             exists p, generate_palette accent wallpaper_path = Some p
                       /\ map fst p = role_keys).
Proof.
  unfold colors_of_sample.
  destruct (kmeans_colors sample num_colors 20) as [centroids|];
    [|discriminate].
  intros H. injection H as <-.
  assert (F : Forall (fun c => is_hex6 c = true)
                (map (fun c : pixel => let '(r, g, b) := c in rgb_to_hex r g b)
                     centroids)).
  { apply Forall_forall. intros c Hc. apply in_map_iff in Hc.
    destruct Hc as ([[r g] b] & <- & _). apply rgb_to_hex_is_hex6. }
  split; [exact F|]. split.
  { exists centroids. split; [reflexivity|apply length_map]. }
  destruct (pick_accent_of_colors _
              (Forall_impl _ (fun c H => hex6_is_color c H) F))
    as (accent & Ea & Hc).
  assert (Hx : is_hex6 accent = true).
  { destruct Hc as [[_ ->]|Hin]; [reflexivity|].
    rewrite Forall_forall in F. apply F, Hin. }
  exists accent. split; [exact Ea|]. split; [exact Hx|]. split; [exact Hc|].
  destruct (color_levels _ (hex6_is_color _ Hx))
    as (i & j & h & l & s & Hi & Hj & Hij & E & Eh).
  split.
  - unfold get_gnome_accent_name. rewrite Eh. eexists. reflexivity.
  - intros wallpaper_path.
    destruct (derive_palette_total i j l s h wallpaper_path Hi Hj Hij E)
      as (p & Ep & Hk & _).
    exists p. split; [|exact Hk].
    unfold generate_palette. rewrite Eh. exact Ep.
Qed.

Lemma extracted_colors_give_an_accent_witness :
  Forall (fun c => is_hex6 c = true) ["#ffffff"; "#000000"]%string
  /\ (exists centroids,
        kmeans_colors [(0, 0, 0); (255, 255, 255)] 2 20 = Some centroids
        /\ List.length ["#ffffff"; "#000000"]%string = List.length centroids)
  /\ exists accent,
       pick_accent ["#ffffff"; "#000000"]%string = Some accent
       /\ is_hex6 accent = true
       /\ ((["#ffffff"; "#000000"]%string = [] /\ accent = "#c41e3a"%string)
           \/ In accent ["#ffffff"; "#000000"]%string)
       /\ (exists name, get_gnome_accent_name accent = Some name)
       /\ (forall wallpaper_path,
             exists p, generate_palette accent wallpaper_path = Some p
                       /\ map fst p = role_keys).
Proof.
  apply (extracted_colors_give_an_accent [(0, 0, 0); (255, 255, 255)] 2).
  vm_compute. reflexivity.
Defined.

(** On every colour with channels in [0, 255], the calls of [darken] that
    the editor themes make (by 15 and by 10) and the calls of [lighten]
    that [generate_palette] makes (by 3, 8, 10 and 12) return a colour
    [#rrggbb]: none can raise. *)
Theorem lighten_and_darken_return (c : string) :
  is_color c = true ->
  (exists x, darken c 15 = Some x /\ is_hex6 x = true)
  /\ (exists x, darken c 10 = Some x /\ is_hex6 x = true)
  /\ (exists x, lighten c 3 = Some x /\ is_hex6 x = true)
  /\ (exists x, lighten c 8 = Some x /\ is_hex6 x = true)
  /\ (exists x, lighten c 10 = Some x /\ is_hex6 x = true)
  /\ (exists x, lighten c 12 = Some x /\ is_hex6 x = true).
Proof.
  intros Hc. repeat split.
  - exact (darken_total _ darken_good_15 c Hc).
  - exact (darken_total _ darken_good_10 c Hc).
  - exact (lighten_total _ lighten_good_3 c Hc).
  - exact (lighten_total _ lighten_good_8 c Hc).
  - exact (lighten_total _ lighten_good_10 c Hc).
  - exact (lighten_total _ lighten_good_12 c Hc).
Qed.

Lemma lighten_and_darken_return_witness :
  (exists x, darken "#c41e3a" 15 = Some x /\ is_hex6 x = true)
  /\ (exists x, darken "#c41e3a" 10 = Some x /\ is_hex6 x = true)
  /\ (exists x, lighten "#c41e3a" 3 = Some x /\ is_hex6 x = true)
  /\ (exists x, lighten "#c41e3a" 8 = Some x /\ is_hex6 x = true)
  /\ (exists x, lighten "#c41e3a" 10 = Some x /\ is_hex6 x = true)
  /\ (exists x, lighten "#c41e3a" 12 = Some x /\ is_hex6 x = true).
Proof. apply lighten_and_darken_return. reflexivity. Defined.

(** * k-means returns [k] colours *)





(** ** Rounding to the format, by value *)








(** ** Arithmetic of the rounded quotient *)








(** ** Truncation *)








(** ** The indices of [linspace] *)











(** ** A sample of one pixel *)


















(** * Further properties of accents and colours *)

(** ** The normalised accent *)

(** Whatever numbers saturation and lightness of the accent are, after the
    normalisation of [generate_palette] the saturation is at least 40 and
    the lightness lies between 25 and 65. *)
Theorem normalized_accent_in_range (a_s al : float) :
  PrimFloat.eqb a_s a_s = true -> PrimFloat.eqb al al = true ->
  let '(s, l) := normalize_accent a_s al in
  PrimFloat.leb 40 s = true
  /\ PrimFloat.leb 25 l = true /\ PrimFloat.leb l 65 = true.
Proof.
  intros Hs Hl. unfold normalize_accent. split; [|split].
  - destruct (PrimFloat.ltb a_s 40) eqn:E; [reflexivity|].
    rewrite (float_leb_negb 40 a_s eq_refl Hs), E. reflexivity.
  - destruct (PrimFloat.ltb al 25) eqn:E; [reflexivity|].
    destruct (PrimFloat.ltb 65 al) eqn:F; [reflexivity|].
    rewrite (float_leb_negb 25 al eq_refl Hl), E. reflexivity.
  - destruct (PrimFloat.ltb al 25) eqn:E; [reflexivity|].
    destruct (PrimFloat.ltb 65 al) eqn:F; [reflexivity|].
    rewrite (float_leb_negb al 65 Hl eq_refl), F. reflexivity.
Qed.

Lemma normalized_accent_in_range_witness :
  let '(s, l) := normalize_accent 0 0 in
  PrimFloat.leb 40 s = true
  /\ PrimFloat.leb 25 l = true /\ PrimFloat.leb l 65 = true.
Proof. apply normalized_accent_in_range; reflexivity. Defined.

(** ** The accent does not depend on the order of the candidates *)

Lemma ascii_of_N_eq (a b : ascii) : N_of_ascii a = N_of_ascii b -> a = b.
Proof.
  intros H. rewrite <- (ascii_N_embedding a), <- (ascii_N_embedding b), H.
  reflexivity.
Qed.

Lemma str_ltb_total (s t : string) :
  PyStr.ltb s t = false -> PyStr.ltb t s = false -> s = t.
Proof.
  revert t. induction s as [|a s IH]; intros [|b t]; simpl; try congruence.
  destruct (N.ltb_spec (N_of_ascii a) (N_of_ascii b)),
    (N.ltb_spec (N_of_ascii b) (N_of_ascii a)); try congruence; try lia.
  intros H1 H2. f_equal.
  - apply ascii_of_N_eq. lia.
  - apply IH; assumption.
Qed.

Lemma scored_lt_total (a b : float) (c c' : string) :
  PrimFloat.eqb a a = true -> PrimFloat.eqb b b = true ->
  scored_lt (a, c) (b, c') = false -> scored_lt (b, c') (a, c) = false ->
  c = c'.
Proof.
  intros Pa Pb. rewrite !scored_lt_alt.
  pose proof (float_eqb_key a b Pa Pb) as Eab.
  pose proof (float_eqb_key b a Pb Pa) as Eba.
  pose proof (float_ltb_key a b Pa Pb) as Lab.
  pose proof (float_ltb_key b a Pb Pa) as Lba.
  destruct (float_key a) as [[a1 a2] a3], (float_key b) as [[b1 b2] b3].
  rewrite lex3_Eq in Eab, Eba. rewrite lex3_Lt in Lab, Lba.
  destruct (PrimFloat.eqb a b), (PrimFloat.eqb b a),
    (PrimFloat.ltb a b), (PrimFloat.ltb b a);
    bool_iff; try (exfalso; lia); try congruence;
    try apply str_ltb_total; intros; exfalso; lia.
Qed.

(** The first of the sorted candidates is not less than any candidate. *)
Lemma pick_accent_greatest (colors : list string) (c : string) :
  Forall (fun c => is_color c = true) colors ->
  colors <> [] -> pick_accent colors = Some c ->
  exists s,
    In c colors /\ score_accent c = Some s /\ PrimFloat.eqb s s = true
    /\ forall c' s', In c' colors -> score_accent c' = Some s' ->
         scored_lt (s, c) (s', c') = false.
Proof.
  intros Hcol Hne Hp.
  destruct (score_all_numbers colors Hcol) as (scored & Es & Em & Ef).
  assert (Ep : pick_accent colors
               = match sort_reverse scored_lt scored with
                 | first :: _ => Some (snd first)
                 | [] => None
                 end).
  { unfold pick_accent. destruct colors; [congruence|]. rewrite Es. reflexivity. }
  rewrite Ep in Hp.
  pose proof (sort_reverse_perm scored_lt scored) as Perm.
  pose proof (sort_reverse_sorted scored_lt
                (fun x => PrimFloat.eqb (fst x) (fst x) = true)
                scored_lt_asym scored_le_trans scored
                (Forall_impl _ (fun x H => proj2 H) Ef)) as Sorted.
  rewrite Forall_forall in Ef.
  destruct (sort_reverse scored_lt scored) as [|[s c0] rest];
    [discriminate Hp|].
  simpl in Hp. injection Hp as ->.
  assert (Hin : In (s, c) scored).
  { apply (Permutation_in _ Perm). left. reflexivity. }
  destruct (Ef _ Hin) as [Sc Ns]. simpl in Sc, Ns.
  exists s. split; [rewrite <- Em; apply (in_map snd _ _ Hin)|].
  split; [exact Sc|]. split; [exact Ns|].
  intros c' s' Hc' Sc'. rewrite <- Em in Hc'. apply in_map_iff in Hc'.
  destruct Hc' as ([s'' c''] & E & Hx). simpl in E. subst c''.
  destruct (Ef _ Hx) as [Sc'' _]. simpl in Sc''.
  assert (s'' = s') by congruence. subst s''.
  apply (Permutation_in _ (Permutation_sym Perm)) in Hx.
  destruct Hx as [Hx|Hx].
  - rewrite <- Hx. apply (scored_lt_irrefl (s, c)). exact Ns.
  - inversion Sorted as [|? ? _ Hall]; subst.
    rewrite Forall_forall in Hall. apply (Hall _ Hx).
Qed.

(** [pick_accent] picks the same accent from a list of colours however the
    list is ordered. *)
Theorem pick_accent_ignores_order (colors colors' : list string) :
  Forall (fun c => is_color c = true) colors ->
  Permutation colors colors' ->
  pick_accent colors = pick_accent colors'.
Proof.
  intros Hcol Perm.
  assert (Hcol' : Forall (fun c => is_color c = true) colors')
    by (eapply Permutation_Forall; eassumption).
  destruct colors as [|c0 cs].
  { apply Permutation_nil in Perm. subst. reflexivity. }
  assert (Hne : c0 :: cs <> []) by discriminate.
  assert (Hne' : colors' <> []).
  { intros ->. apply Permutation_sym, Permutation_nil in Perm.
    discriminate Perm. }
  destruct (pick_accent_of_colors _ Hcol) as (c & Ec & _).
  destruct (pick_accent_of_colors _ Hcol') as (c' & Ec' & _).
  rewrite Ec, Ec'. f_equal.
  destruct (pick_accent_greatest _ c Hcol Hne Ec) as (s & Hin & Sc & Ns & G).
  destruct (pick_accent_greatest _ c' Hcol' Hne' Ec')
    as (s' & Hin' & Sc' & Ns' & G').
  apply (scored_lt_total s s' c c' Ns Ns').
  - apply G; [|exact Sc'].
    apply (Permutation_in _ (Permutation_sym Perm)), Hin'.
  - apply G'; [|exact Sc]. apply (Permutation_in _ Perm), Hin.
Qed.

Lemma pick_accent_ignores_order_witness :
  pick_accent ["#000000"; "#ffffff"]%string
  = pick_accent ["#ffffff"; "#000000"]%string.
Proof.
  apply pick_accent_ignores_order.
  - repeat constructor.
  - apply perm_swap.
Defined.

(** ** The round trip through HSL *)

Lemma greys_round_trip : forallb round_trip_grey (range 256) = true.
Proof. vm_compute. reflexivity. Qed.

Lemma round_trips_with_0 :
  forallb (fun x => forallb (round_trip_with 0 x) (range 256)) (range 256)
  = true.
Proof. vm_compute. reflexivity. Qed.

Lemma round_trips_with_255 :
  forallb (fun x => forallb (round_trip_with 255 x) (range 256)) (range 256)
  = true.
Proof. vm_compute. reflexivity. Qed.

(** Converting a colour to HSL and back is not the identity: the grey 15
    comes back as 14.  Every grey comes back as a grey, the same or one unit
    darker; and every colour that has a channel equal to 0 or to 255 comes
    back with no channel changed by more than one unit. *)
Theorem round_trip_of_greys_and_pure_colors :
  round_trip 15 15 15 = Some (14, 14, 14)
  /\ (forall v, is_channel v = true ->
        exists t, round_trip v v v = Some (t, t, t) /\ v - 1 <= t <= v)
  /\ (forall c x y,
        c = 0 \/ c = 255 -> is_channel x = true -> is_channel y = true ->
        round_trip_close c x y = true /\ round_trip_close x c y = true
        /\ round_trip_close x y c = true).
Proof.
  split; [vm_compute; reflexivity|]. split.
  - intros v Hv. unfold is_channel in Hv.
    rewrite andb_true_iff, !Z.leb_le in Hv.
    assert (Hv' : 0 <= v < Z.of_nat 256)
      by (change (Z.of_nat 256) with 256; lia).
    pose proof (forallb_range _ 256 greys_round_trip v Hv') as G.
    unfold round_trip_grey in G.
    destruct (round_trip v v v) as [[[r' g'] b']|]; [|discriminate G].
    rewrite !andb_true_iff, !Z.eqb_eq, !Z.leb_le in G.
    destruct G as [[[-> ->] L] U]. exists b'. split; [reflexivity|lia].
  - intros c x y Hc Hx Hy.
    assert (H : round_trip_with c x y = true).
    { destruct Hc as [->| ->].
      - exact (channel_pairs _ round_trips_with_0 x y Hx Hy).
      - exact (channel_pairs _ round_trips_with_255 x y Hx Hy). }
    unfold round_trip_with in H. rewrite !andb_true_iff in H. tauto.
Qed.

(** ** The score does not look at the hue *)




